(** * Risk rating evaluator: a shallow embedding of [risk_rating/analyzer.py]

    The development follows the layout of the Python module: the string
    primitives the module takes from the Python runtime ([str.lower],
    [str.replace], [re.sub], [str.strip], [in], [re.split], [re.search]),
    the rule document, the evaluator's methods, and then the properties.

    Modelling conventions.
    - A Python [str] is a [str]: the sequence of its code points.  String
      literals are read as UTF-8.
    - The whitespace class of [re] and of [str.strip] is the set of the
      twenty-nine code points for which [str.isspace] holds.
    - The case and letter tables of the Python runtime are not part of the
      repository and change with the Unicode version of the interpreter.
      They are the parameters [unicode_lower] and [unicode_isalnum] of the
      class [Py.Unicode]; every definition and theorem below holds for all of
      them.  On text of ASCII characters [str.lower] and the word class [\w]
      are fixed: there the definitions compute.
    - The rule document is the parsed JSON.  A key read with [d.get(k, dflt)]
      is an [option] field whose [None] takes the default; a key read with
      [d[k]] is an [option] field whose [None] raises [KeyError k].
    - A raised exception is the [Raise] branch of [result].
    - [Dict[str, ControlStatus]] is a [gmap str ControlStatus]; a Python
      [set] of strings is a [gset str]. *)

From stdpp Require Import gmap list sorting.
From Stdlib Require Import ZArith Lia.
From Stdlib.Strings Require Import Byte.

Local Open Scope Z_scope.
Local Open Scope stdpp_scope.

(** ** Text *)

(** A code point. *)
Definition char : Type := N.

Inductive str : Type :=
  | EmptyStr
  | Str (c : char) (s : str).

(** String literals: the UTF-8 bytes of the literal are decoded into code
    points. *)
Module Utf8.

Definition continuation (x : byte) : N := (Byte.to_N x - 128)%N.

Fixpoint decode (fuel : nat) (l : list byte) : option str :=
  match fuel, l with
  | _, [] => Some EmptyStr
  | O, _ :: _ => None
  | S fuel, x :: l =>
      let n := Byte.to_N x in
      if (n <? 128)%N then Str n <$> decode fuel l
      else if (n <? 224)%N then
        match l with
        | y :: l => Str ((n - 192) * 64 + continuation y)%N <$> decode fuel l
        | _ => None
        end
      else if (n <? 240)%N then
        match l with
        | y :: z :: l =>
            Str ((n - 224) * 4096 + continuation y * 64 + continuation z)%N
              <$> decode fuel l
        | _ => None
        end
      else
        match l with
        | y :: z :: w :: l =>
            Str ((n - 240) * 262144 + continuation y * 4096
                 + continuation z * 64 + continuation w)%N
              <$> decode fuel l
        | _ => None
        end
  end.

Definition parse (l : list byte) : option str := decode (length l) l.

Definition byte_of (n : N) : byte := default x00 (Byte.of_N n).

Definition encode (c : char) : list byte :=
  if (c <? 128)%N then [byte_of c]
  else if (c <? 2048)%N then [byte_of (192 + c / 64); byte_of (128 + c mod 64)]%N
  else if (c <? 65536)%N then
    [byte_of (224 + c / 4096); byte_of (128 + (c / 64) mod 64);
     byte_of (128 + c mod 64)]%N
  else
    [byte_of (240 + c / 262144); byte_of (128 + (c / 4096) mod 64);
     byte_of (128 + (c / 64) mod 64); byte_of (128 + c mod 64)]%N.

Fixpoint print (s : str) : list byte :=
  match s with
  | EmptyStr => []
  | Str c s => encode c ++ print s
  end.

End Utf8.

Declare Scope str_scope.
Delimit Scope str_scope with str.
Bind Scope str_scope with str.
String Notation str Utf8.parse Utf8.print : str_scope.
Local Open Scope str_scope.

Fixpoint chars (s : str) : list char :=
  match s with
  | EmptyStr => []
  | Str c s => c :: chars s
  end.

Fixpoint of_chars (l : list char) : str :=
  match l with
  | [] => EmptyStr
  | c :: l => Str c (of_chars l)
  end.

Lemma of_chars_chars (s : str) : of_chars (chars s) = s.
Proof. induction s as [|c s IH]; cbn; by rewrite ?IH. Qed.

#[global] Instance str_eq_dec : EqDecision str.
Proof. solve_decision. Defined.

#[global] Instance str_countable : Countable str :=
  inj_countable' chars of_chars of_chars_chars.

(** [s + t] *)
Fixpoint append (s t : str) : str :=
  match s with
  | EmptyStr => t
  | Str c s => Str c (append s t)
  end.

Infix "+:+" := append (at level 60, right associativity) : str_scope.
#[global] Arguments append : simpl never.

(** ** Python string primitives *)

Module Py.

(** [len(s)] *)
Fixpoint len (s : str) : nat :=
  match s with
  | EmptyStr => O
  | Str _ t => S (len t)
  end.

(** [str.isspace] on one character, which is also the class [\s] of [re]
    and the set that [str.strip] removes. *)
Definition isspace (c : char) : bool :=
  ((9 <=? c) && (c <=? 13) || (28 <=? c) && (c <=? 32)
   || (c =? 133) || (c =? 160) || (c =? 5760)
   || (8192 <=? c) && (c <=? 8202)
   || (c =? 8232) || (c =? 8233) || (c =? 8239) || (c =? 8287) || (c =? 12288))%N.

(** The text holds whitespace only. *)
Fixpoint blank (s : str) : bool :=
  match s with
  | EmptyStr => true
  | Str c t => isspace c && blank t
  end.

(** The tables of the Python runtime.  [unicode_lower] is [str.lower];
    [unicode_isalnum] is [str.isalnum] on one character.  One fact about
    them is used: lower-casing keeps whitespace and makes none, so a text
    is blank after it exactly if it was before. *)
Class Unicode : Type := {
  unicode_lower : str → str;
  unicode_isalnum : char → bool;
  unicode_lower_blank : ∀ s, blank (unicode_lower s) = blank s;
}.

(** [c.isascii()] *)
Definition isascii (c : char) : bool := (c <? 128)%N.

Fixpoint all_ascii (s : str) : bool :=
  match s with
  | EmptyStr => true
  | Str c t => isascii c && all_ascii t
  end.

(** [str.lower] on text of ASCII characters: [A] to [Z] become [a] to [z],
    one character at a time. *)
Definition lower_char (c : char) : char :=
  if ((65 <=? c) && (c <=? 90))%N then (c + 32)%N else c.

Fixpoint lower_ascii (s : str) : str :=
  match s with
  | EmptyStr => EmptyStr
  | Str c t => Str (lower_char c) (lower_ascii t)
  end.

(** [s.startswith(p)] *)
Fixpoint startswith (s p : str) {struct p} : bool :=
  match p, s with
  | EmptyStr, _ => true
  | Str _ _, EmptyStr => false
  | Str a p', Str b s' => bool_decide (a = b) && startswith s' p'
  end.

(** The rest of [s] after the prefix [p], if [s] starts with [p]. *)
Fixpoint after_prefix (p s : str) {struct p} : option str :=
  match p, s with
  | EmptyStr, _ => Some s
  | Str _ _, EmptyStr => None
  | Str a p', Str b s' => if bool_decide (a = b) then after_prefix p' s' else None
  end.

(** [needle in hay] on strings: [needle] occurs as a contiguous run. *)
Fixpoint str_in (needle hay : str) : bool :=
  startswith hay needle ||
  match hay with
  | EmptyStr => false
  | Str _ t => str_in needle t
  end.

(** [s.replace(old, new)] for a non-empty [old]: occurrences are replaced
    from the left and do not overlap.  [skip] counts the characters of an
    occurrence already replaced that are still to be passed over. *)
Fixpoint replace_go (old new : str) (skip : nat) (s : str) : str :=
  match s with
  | EmptyStr => EmptyStr
  | Str c t =>
      match skip with
      | S k => replace_go old new k t
      | O =>
          if startswith s old
          then new +:+ replace_go old new (Nat.pred (len old)) t
          else Str c (replace_go old new O t)
      end
  end.

Definition replace (old new s : str) : str := replace_go old new O s.

(** [re.sub(r"\s+", " ", s)]: every maximal run of whitespace becomes one
    space.  [in_run] tells that the previous character was whitespace. *)
Fixpoint sub_spaces_go (in_run : bool) (s : str) : str :=
  match s with
  | EmptyStr => EmptyStr
  | Str c t =>
      if isspace c
      then if in_run then sub_spaces_go true t
           else Str 32%N (sub_spaces_go true t)
      else Str c (sub_spaces_go false t)
  end.

Definition sub_spaces (s : str) : str := sub_spaces_go false s.

Fixpoint lstrip (s : str) : str :=
  match s with
  | EmptyStr => EmptyStr
  | Str c t => if isspace c then lstrip t else s
  end.

Fixpoint rstrip (s : str) : str :=
  match s with
  | EmptyStr => EmptyStr
  | Str c t =>
      match rstrip t with
      | EmptyStr => if isspace c then EmptyStr else Str c EmptyStr
      | t' => Str c t'
      end
  end.

(** [s.strip()] *)
Definition strip (s : str) : str := rstrip (lstrip s).

(** [sep.join(l)] *)
Fixpoint join (sep : str) (l : list str) : str :=
  match l with
  | [] => EmptyStr
  | [w] => w
  | w :: ws => w +:+ sep +:+ join sep ws
  end.

(** [s <= t] on strings: the lexicographic order of the code points. *)
Fixpoint leb (s t : str) : bool :=
  match s, t with
  | EmptyStr, _ => true
  | Str _ _, EmptyStr => false
  | Str a s', Str b t' => (a <? b)%N || (a =? b)%N && leb s' t'
  end.

Definition le (s t : str) : Prop := leb s t = true.

#[global] Instance le_dec : RelDecision le := λ s t, decide (leb s t = true).

(** [sorted(l)] on strings. *)
Definition sorted (l : list str) : list str := merge_sort le l.

Section tables.
Context {U : Unicode}.

(** [s.lower()]: fixed on text of ASCII characters, the runtime's table
    on any other text (which lowers [LATIN CAPITAL LETTER E WITH ACUTE],
    and a capital sigma by its neighbours). *)
Definition lower (s : str) : str :=
  if all_ascii s then lower_ascii s else unicode_lower s.

(** The class [\w]: the underscore and the characters for which
    [str.isalnum] holds, which in ASCII are the letters and the digits. *)
Definition isword (c : char) : bool :=
  if isascii c
  then ((48 <=? c) && (c <=? 57) || (65 <=? c) && (c <=? 90)
        || (97 <=? c) && (c <=? 122) || (c =? 95))%N
  else unicode_isalnum c.

(** [re.split(r"\W+", s)]: the pieces between maximal runs of non-word
    characters; a run at either end leaves an empty piece there. *)
Fixpoint split_nonword_go (in_run : bool) (s : str) : list str :=
  match s with
  | EmptyStr => [EmptyStr]
  | Str c t =>
      if isword c
      then match split_nonword_go false t with
           | w :: ws => Str c w :: ws
           | [] => [Str c EmptyStr]
           end
      else if in_run then split_nonword_go true t
           else EmptyStr :: split_nonword_go true t
  end.

Definition split_nonword (s : str) : list str := split_nonword_go false s.

(** The boundary [\b] that follows a word character: the text ends or goes
    on with a non-word character. *)
Definition boundary_after (rest : str) : bool :=
  match rest with
  | EmptyStr => true
  | Str c _ => negb (isword c)
  end.

(** [re.search(r"\bn/a\b", s)] as a truth value: at some position the
    text goes on with [n/a], no word character stands before it and a
    boundary follows.  [prev_word] tells that the character before [s] is a
    word character. *)
Fixpoint search_na_go (prev_word : bool) (s : str) : bool :=
  match s with
  | EmptyStr => false
  | Str c t =>
      negb prev_word
      && match after_prefix "n/a" s with
         | Some rest => boundary_after rest
         | None => false
         end
      || search_na_go (isword c) t
  end.

Definition search_na (s : str) : bool := search_na_go false s.

End tables.

End Py.

(** ** Exceptions *)

Inductive PyError : Type :=
  | KeyError (key : str).

Inductive result (A : Type) : Type :=
  | Ok (a : A)
  | Raise (e : PyError).
Arguments Ok {A} a.
Arguments Raise {A} e.

#[global] Instance result_ret : MRet result := fun A a => Ok a.
#[global] Instance result_bind : MBind result := fun A B f m =>
  match m with
  | Ok a => f a
  | Raise e => Raise e
  end.

(** [d[key]] on a parsed JSON object. *)
Definition getitem {A : Type} (key : str) (d : option A) : result A :=
  match d with
  | Some a => Ok a
  | None => Raise (KeyError key)
  end.

(** [for x in l: s = body(s, x)], stopping at the first exception. *)
Fixpoint for_each {A S : Type} (body : S -> A -> result S) (l : list A) (s : S)
  : result S :=
  match l with
  | [] => Ok s
  | x :: xs => s' ← body s x; for_each body xs s'
  end.

(** Truth value of a list: it is not empty. *)
Definition nonempty {A : Type} (l : list A) : bool :=
  match l with
  | [] => false
  | _ :: _ => true
  end.

(** Truth value of [d.get(key)] for a JSON boolean. *)
Definition truthy (b : option bool) : bool := default false b.

(** ** The rule document *)

Record Control : Type := {
  ctl_id : option str;
  ctl_text : option str;
  ctl_tags : option (list str);
}.

Record LogicalAccessConditions : Type := {
  pii_positive_statements : option (list str);
  enforce_mfa_critical_or_pii_if_company_handles_pii : option bool;
  passwords_encrypted_in_transit_only_if_negative_statement_present :
    option (list str);
}.

Record NetworkConditions : Type := {
  enforce_pii_controls_if_company_handles_pii : option bool;
  do_not_enforce_need_to_know_if_least_privilege_statement_present : option bool;
}.

Record RemoteWorkforceConditions : Type := {
  enforce_only_if_remote_work_allowed : option str;
}.

Record CrossRule : Type := {
  if_any_statement_present : option (list str);
  then_mark_controls_met : option (list str);
}.

Record Conditions : Type := {
  cond_logical_access_controls : option LogicalAccessConditions;
  cond_network_information_security : option NetworkConditions;
  cond_remote_workforce : option RemoteWorkforceConditions;
  cross_satisfaction : option (list CrossRule);
}.

Record NetworkCatalog : Type := {
  pii_controls : option (list Control);
  controls : option (list Control);
}.

Record Catalog : Type := {
  cat_logical_access_controls : option (list Control);
  cat_network_information_security : option NetworkCatalog;
  cat_change_mgmt_sdlc : option (list Control);
  cat_remote_workforce : option (list Control);
  cat_business_continuity : option (list Control);
  incident_response_elements : option (list str);
}.

Record InfoTechRequirement : Type := {
  ito_required : option (list str);
}.

Record LogicalAccessRequirement : Type := {
  lac_required_all : option bool;
  lac_min_count : option Z;
  lac_must_include_tag : option str;
}.

Record NetworkRequirement : Type := {
  pii_controls_required_if_company_handles_pii : option bool;
  controls_required_all : option bool;
  net_min_count : option Z;
  net_must_include_tag : option str;
}.

Record ChangeMgmtRequirement : Type := {
  chg_required_all : option bool;
  require_change_mgmt_process : option bool;
  min_count_from : option (list str);
  chg_min_count : option Z;
}.

Record RemoteWorkforceRequirement : Type := {
  rw_required_all : option bool;
  rw_min_count : option Z;
}.

Record IncidentResponseRequirement : Type := {
  min_elements : option Z;
}.

Record BusinessContinuityRequirement : Type := {
  bcp_required : option bool;
}.

Record Requirements : Type := {
  req_info_tech_overview : option InfoTechRequirement;
  req_logical_access_controls : option LogicalAccessRequirement;
  req_network_information_security : option NetworkRequirement;
  req_change_mgmt_sdlc : option ChangeMgmtRequirement;
  req_remote_workforce : option RemoteWorkforceRequirement;
  req_incident_response : option IncidentResponseRequirement;
  req_business_continuity : option BusinessContinuityRequirement;
}.

(** The four tiers of [ratings_order], best first. *)
Inductive Tier : Type := very_favorable | favorable | neutral | unfavorable.

Record Ratings : Type := {
  ratings_very_favorable : option Requirements;
  ratings_favorable : option Requirements;
  ratings_neutral : option Requirements;
  ratings_unfavorable : option Requirements;
}.

Record Rules : Type := {
  conditions : option Conditions;
  catalog : option Catalog;
  ratings : option Ratings;
}.

(** The empty objects that stand in for an absent key in [d.get(key, {})]. *)
Definition no_logical_access_conditions : LogicalAccessConditions :=
  {| pii_positive_statements := None;
     enforce_mfa_critical_or_pii_if_company_handles_pii := None;
     passwords_encrypted_in_transit_only_if_negative_statement_present := None |}.
Definition no_network_conditions : NetworkConditions :=
  {| enforce_pii_controls_if_company_handles_pii := None;
     do_not_enforce_need_to_know_if_least_privilege_statement_present := None |}.
Definition no_remote_workforce_conditions : RemoteWorkforceConditions :=
  {| enforce_only_if_remote_work_allowed := None |}.
Definition no_conditions : Conditions :=
  {| cond_logical_access_controls := None;
     cond_network_information_security := None;
     cond_remote_workforce := None;
     cross_satisfaction := None |}.
Definition no_network_catalog : NetworkCatalog :=
  {| pii_controls := None; controls := None |}.
Definition no_catalog : Catalog :=
  {| cat_logical_access_controls := None;
     cat_network_information_security := None;
     cat_change_mgmt_sdlc := None;
     cat_remote_workforce := None;
     cat_business_continuity := None;
     incident_response_elements := None |}.
Definition no_info_tech_requirement : InfoTechRequirement :=
  {| ito_required := None |}.
Definition no_logical_access_requirement : LogicalAccessRequirement :=
  {| lac_required_all := None; lac_min_count := None; lac_must_include_tag := None |}.
Definition no_network_requirement : NetworkRequirement :=
  {| pii_controls_required_if_company_handles_pii := None;
     controls_required_all := None;
     net_min_count := None;
     net_must_include_tag := None |}.
Definition no_change_mgmt_requirement : ChangeMgmtRequirement :=
  {| chg_required_all := None;
     require_change_mgmt_process := None;
     min_count_from := None;
     chg_min_count := None |}.
Definition no_remote_workforce_requirement : RemoteWorkforceRequirement :=
  {| rw_required_all := None; rw_min_count := None |}.
Definition no_incident_response_requirement : IncidentResponseRequirement :=
  {| min_elements := None |}.
Definition no_business_continuity_requirement : BusinessContinuityRequirement :=
  {| bcp_required := None |}.

Definition tier_name (t : Tier) : str :=
  match t with
  | very_favorable => "very_favorable"
  | favorable => "favorable"
  | neutral => "neutral"
  | unfavorable => "unfavorable"
  end.

(** [ratings[rating]] *)
Definition ratings_getitem (r : Ratings) (t : Tier) : result Requirements :=
  getitem (tier_name t)
    match t with
    | very_favorable => ratings_very_favorable r
    | favorable => ratings_favorable r
    | neutral => ratings_neutral r
    | unfavorable => ratings_unfavorable r
    end.

(** ** Values computed by an evaluation *)

Record ControlStatus : Type := {
  control_id : str;
  required : bool;
  satisfied : bool;
  text : str;
  tags : list str;
}.

(** The dictionary built by [_build_context]. *)
Record Context : Type := {
  handles_pii : bool;
  remote_work_allowed : bool;
  software_provider : bool;
}.

Inductive Rating : Type :=
  | no_information_provided
  | n_a
  | tier (t : Tier)
  | very_unfavorable.

(** The ["details"] object: empty, the one of [_build_rating_details], or the
    one of the fallback. *)
Inductive Details : Type :=
  | no_details
  | rating_details (rating : Tier)
      (satisfied_controls missing_controls : list str)
      (incident_response_elements info_tech_overview : list str)
  | fallback_details (reason : str) (missing_controls : list str).

(** The ["context"] object of a result; the key ["incident_elements"] is
    absent from the two short-circuit results. *)
Record ResultContext : Type := {
  res_handles_pii : bool;
  res_remote_work_allowed : bool;
  res_software_provider : bool;
  res_incident_elements : option (list str);
}.

Record EvaluationResult : Type := {
  res_rating : Rating;
  res_details : Details;
  res_context : ResultContext;
}.

(** ** Module-level functions *)

Section text.
Context {U : Py.Unicode}.

Definition _normalize (raw : str) : str :=
  let normalized := Py.replace "â€¦" "..." (Py.lower raw) in
  Py.strip (Py.sub_spaces normalized).

Definition _statement_present (notes statement : str) : bool :=
  if bool_decide (statement = "") then false
  else
    let normalized_statement := _normalize statement in
    Py.str_in normalized_statement notes.

End text.

(** ** The evaluator *)

Record RiskRatingEvaluator : Type := {
  rules : Rules;
  notes : str;
}.

Definition SOFTWARE_PROVIDER_KEYWORDS : list str :=
  [ "software provider";
    "software development";
    "develops software";
    "developing software";
    "builds software";
    "provides software";
    "saas";
    "platform as a service";
    "application development" ].

Definition ratings_order : list Tier :=
  [very_favorable; favorable; neutral; unfavorable].

Definition degenerate_context : ResultContext :=
  {| res_handles_pii := false;
     res_remote_work_allowed := false;
     res_software_provider := false;
     res_incident_elements := None |}.

Abbreviation StatusMap := (gmap str ControlStatus).

(** [status.items()] and [status.values()] *)
Definition items (status : StatusMap) : list (str * ControlStatus) :=
  map_to_list status.
Definition values (status : StatusMap) : list ControlStatus :=
  (items status).*2.

(** [sum(1 for x in l if p(x))] *)
Definition count {A : Type} (p : A -> bool) (l : list A) : Z :=
  Z.of_nat (length (List.filter p l)).

Section evaluator.
Context {U : Py.Unicode}.

Definition _build_context (self : RiskRatingEvaluator) : result Context :=
  cond ← getitem "conditions" (conditions (rules self));
  let logical_conditions :=
    default no_logical_access_conditions (cond_logical_access_controls cond) in
  let handles_pii :=
    existsb (fun stmt => _statement_present (notes self) stmt)
      (default [] (pii_positive_statements logical_conditions)) in
  let remote_condition :=
    default ""
      (enforce_only_if_remote_work_allowed
         (default no_remote_workforce_conditions (cond_remote_workforce cond))) in
  let remote_allowed :=
    negb (bool_decide (remote_condition = ""))
    && _statement_present (notes self) remote_condition in
  let software_provider :=
    existsb (fun phrase => Py.str_in phrase (notes self))
      SOFTWARE_PROVIDER_KEYWORDS in
  Ok {| handles_pii := handles_pii;
        remote_work_allowed := remote_allowed;
        software_provider := software_provider |}.

(** The body of the loop over the cross-satisfaction rules: the inner loop
    stops at the first statement that is present. *)
Definition cross_rule_step (self : RiskRatingEvaluator)
    (satisfied : gset str) (rule : CrossRule) : gset str :=
  let if_any := default [] (if_any_statement_present rule) in
  if existsb (fun statement => _statement_present (notes self) statement) if_any
  then satisfied ∪ list_to_set (default [] (then_mark_controls_met rule))
  else satisfied.

Definition _apply_cross_satisfaction (self : RiskRatingEvaluator)
  : result (gset str) :=
  cond ← getitem "conditions" (conditions (rules self));
  let cross_rules := default [] (cross_satisfaction cond) in
  Ok (foldl (cross_rule_step self) ∅ cross_rules).

Definition _statement_satisfies_control (self : RiskRatingEvaluator)
    (control_id control_text : str) : result bool :=
  if _statement_present (notes self) control_text then Ok true
  else if negb (bool_decide (control_id = "")) && Py.str_in control_id (notes self)
  then Ok true
  else
    let words := Py.split_nonword control_id in
    let token := Py.join " " (tail words) in
    if bool_decide (1 < length words)%nat
       && (negb (bool_decide (token = "")) && Py.str_in token (notes self))
    then Ok true
    else if bool_decide (control_id = "lac_passwords_encrypted_in_transit")
    then
      cond ← getitem "conditions" (conditions (rules self));
      lac ← getitem "logical_access_controls" (cond_logical_access_controls cond);
      let negatives :=
        default []
          (passwords_encrypted_in_transit_only_if_negative_statement_present lac) in
      if existsb (fun neg => _statement_present (notes self) neg) negatives
      then Ok false
      else Ok false
    else Ok false.

Definition register_control (status : StatusMap) (control_id : str)
    (required satisfied : bool) (text : str) (tags : list str) : StatusMap :=
  <[control_id :=
      {| control_id := control_id;
         required := required;
         satisfied := satisfied;
         text := text;
         tags := tags |}]> status.

Definition check_control (self : RiskRatingEvaluator) (cross_satisfied : gset str)
    (status : StatusMap) (control : Control) (required : bool) : result StatusMap :=
  control_id ← getitem "id" (ctl_id control);
  let control_text := default "" (ctl_text control) in
  satisfied ←
    (if bool_decide (control_id ∈ cross_satisfied) then Ok true
     else _statement_satisfies_control self control_id control_text);
  Ok (register_control status control_id required satisfied control_text
        (default [] (ctl_tags control))).

(** The bodies of the six loops of [_evaluate_controls]. *)
Definition logical_access_step (self : RiskRatingEvaluator) (cond : Conditions)
    (context : Context) (cross_satisfied : gset str)
    (status : StatusMap) (control : Control) : result StatusMap :=
  cid ← getitem "id" (ctl_id control);
  let required :=
    negb (bool_decide (cid = "lac_mfa_critical_or_pii")
          && truthy (enforce_mfa_critical_or_pii_if_company_handles_pii
                       (default no_logical_access_conditions
                          (cond_logical_access_controls cond)))
          && negb (handles_pii context)) in
  check_control self cross_satisfied status control required.

Definition pii_step (self : RiskRatingEvaluator) (cond : Conditions)
    (context : Context) (cross_satisfied : gset str)
    (status : StatusMap) (control : Control) : result StatusMap :=
  let net_cond :=
    default no_network_conditions (cond_network_information_security cond) in
  let required :=
    negb (truthy (enforce_pii_controls_if_company_handles_pii net_cond)
          && negb (handles_pii context)) in
  cid ← getitem "id" (ctl_id control);
  if bool_decide (cid = "net_pii_need_to_know")
     && truthy (do_not_enforce_need_to_know_if_least_privilege_statement_present
                  net_cond)
  then
    match status !! "lac_least_privilege" with
    | Some least_privilege =>
        if satisfied least_privilege
        then Ok (register_control status cid false true
                   (default "" (ctl_text control)) (default [] (ctl_tags control)))
        else check_control self cross_satisfied status control required
    | None => check_control self cross_satisfied status control required
    end
  else check_control self cross_satisfied status control required.

Definition always_required_step (self : RiskRatingEvaluator)
    (cross_satisfied : gset str)
    (status : StatusMap) (control : Control) : result StatusMap :=
  check_control self cross_satisfied status control true.

Definition change_mgmt_step (self : RiskRatingEvaluator) (context : Context)
    (cross_satisfied : gset str)
    (status : StatusMap) (control : Control) : result StatusMap :=
  check_control self cross_satisfied status control (software_provider context).

Definition remote_workforce_step (self : RiskRatingEvaluator) (context : Context)
    (cross_satisfied : gset str)
    (status : StatusMap) (control : Control) : result StatusMap :=
  check_control self cross_satisfied status control (remote_work_allowed context).

Definition _evaluate_controls (self : RiskRatingEvaluator) (context : Context)
    (cross_satisfied : gset str) : result StatusMap :=
  let status : StatusMap := ∅ in
  let cond := default no_conditions (conditions (rules self)) in
  let cat := default no_catalog (catalog (rules self)) in
  status ← for_each (logical_access_step self cond context cross_satisfied)
             (default [] (cat_logical_access_controls cat)) status;
  let network_catalog :=
    default no_network_catalog (cat_network_information_security cat) in
  status ← for_each (pii_step self cond context cross_satisfied)
             (default [] (pii_controls network_catalog)) status;
  status ← for_each (always_required_step self cross_satisfied)
             (default [] (controls network_catalog)) status;
  status ← for_each (change_mgmt_step self context cross_satisfied)
             (default [] (cat_change_mgmt_sdlc cat)) status;
  status ← for_each (remote_workforce_step self context cross_satisfied)
             (default [] (cat_remote_workforce cat)) status;
  status ← for_each (always_required_step self cross_satisfied)
             (default [] (cat_business_continuity cat)) status;
  Ok status.

(** The loop of the two collectors: add the statements that are present. *)
Definition present_statements (self : RiskRatingEvaluator) (l : list str)
  : gset str :=
  foldl (fun acc statement =>
           if _statement_present (notes self) statement
           then acc ∪ {[statement]} else acc) ∅ l.

Definition _collect_incident_response_elements (self : RiskRatingEvaluator)
  : result (gset str) :=
  cat ← getitem "catalog" (catalog (rules self));
  Ok (present_statements self (default [] (incident_response_elements cat))).

Definition _evaluate_info_tech_overview (self : RiskRatingEvaluator)
  : result (gset str) :=
  rts ← getitem "ratings" (ratings (rules self));
  vf ← ratings_getitem rts very_favorable;
  overview ← getitem "info_tech_overview" (req_info_tech_overview vf);
  Ok (present_statements self (default [] (ito_required overview))).

(** [bool(c and c.satisfied)] for [c = status.get(key)] *)
Definition status_satisfied (status : StatusMap) (key : str) : bool :=
  match status !! key with
  | Some ctrl => satisfied ctrl
  | None => false
  end.

Definition _evaluate_business_continuity (control_status : StatusMap) : bool :=
  status_satisfied control_status "bcp_plan".

Definition _meets_info_tech_overview (requirement : InfoTechRequirement)
    (present : gset str) : bool :=
  let required := default [] (ito_required requirement) in
  forallb (fun statement => bool_decide (statement ∈ present)) required.

Definition _category_controls (prefix : str) (status : StatusMap)
  : list ControlStatus :=
  (List.filter (fun kv => Py.startswith kv.1 prefix) (items status)).*2.

(** [any(ctrl.satisfied and tag in ctrl.tags for ctrl in l)] *)
Definition any_satisfied_with_tag (tag : str) (l : list ControlStatus) : bool :=
  existsb (fun ctrl => satisfied ctrl && bool_decide (tag ∈ tags ctrl)) l.

Definition _meets_logical_access_controls (requirement : LogicalAccessRequirement)
    (status : StatusMap) : bool :=
  let controls := _category_controls "lac_" status in
  let required_controls := List.filter required controls in
  if truthy (lac_required_all requirement)
  then forallb satisfied required_controls
  else
    let n := count satisfied required_controls in
    if n <? default 0 (lac_min_count requirement) then false
    else
      match lac_must_include_tag requirement with
      | Some tag =>
          if negb (bool_decide (tag = ""))
             && negb (any_satisfied_with_tag tag required_controls)
          then false else true
      | None => true
      end.

Definition _meets_network_controls (requirement : NetworkRequirement)
    (context : Context) (status : StatusMap) : bool :=
  let pii_controls := List.filter required (_category_controls "net_pii_" status) in
  if truthy (pii_controls_required_if_company_handles_pii requirement)
     && handles_pii context
     && (negb (nonempty pii_controls) || negb (forallb satisfied pii_controls))
  then false
  else
    let net_controls :=
      List.filter
        (fun ctrl => Py.startswith (control_id ctrl) "net_"
                     && negb (Py.startswith (control_id ctrl) "net_pii_"))
        (values status) in
    let required_controls := List.filter required net_controls in
    if truthy (controls_required_all requirement)
    then forallb satisfied required_controls
    else
      let n := count satisfied required_controls in
      if n <? default 0 (net_min_count requirement) then false
      else
        match net_must_include_tag requirement with
        | Some tag =>
            if negb (bool_decide (tag = ""))
               && negb (any_satisfied_with_tag tag required_controls)
            then false else true
        | None => true
        end.

Definition _meets_change_mgmt (requirement : ChangeMgmtRequirement)
    (context : Context) (status : StatusMap) : bool :=
  let controls := _category_controls "chg_" status in
  let required_controls := List.filter required controls in
  if negb (software_provider context) then true
  else if truthy (chg_required_all requirement)
  then forallb satisfied required_controls
  else if truthy (require_change_mgmt_process requirement)
          && negb (status_satisfied status "chg_change_mgmt_process")
  then false
  else
    let min_count_from := default [] (min_count_from requirement) in
    if nonempty min_count_from
    then
      let satisfied_count := count (status_satisfied status) min_count_from in
      if satisfied_count <? default 0 (chg_min_count requirement)
      then false else true
    else
      let n := count satisfied required_controls in
      if n <? default 0 (chg_min_count requirement) then false else true.

Definition _meets_remote_workforce (requirement : RemoteWorkforceRequirement)
    (context : Context) (status : StatusMap) : bool :=
  let controls := _category_controls "rw_" status in
  let required_controls := List.filter required controls in
  if negb (remote_work_allowed context) then true
  else if truthy (rw_required_all requirement)
  then forallb satisfied required_controls
  else
    let n := count satisfied required_controls in
    if n <? default 0 (rw_min_count requirement) then false else true.

Definition _meets_incident_response (requirement : IncidentResponseRequirement)
    (elements : gset str) : bool :=
  match min_elements requirement with
  | None => true
  | Some min_elements => Z.of_nat (size elements) >=? min_elements
  end.

(** The requirement object is read through its key ["required"] alone; an
    object without that key, empty or not, is accepted by either test. *)
Definition _meets_business_continuity (requirement : BusinessContinuityRequirement)
    (has_plan : bool) : bool :=
  match bcp_required requirement with
  | None => true
  | Some req => if req && negb has_plan then false else true
  end.

Definition _meets_rating (rating : Tier) (requirements : Requirements)
    (context : Context) (control_status : StatusMap)
    (incident_elements info_tech_overview : gset str)
    (business_continuity : bool) : bool :=
  if negb (_meets_info_tech_overview
             (default no_info_tech_requirement (req_info_tech_overview requirements))
             info_tech_overview)
  then false
  else if negb (_meets_logical_access_controls
                  (default no_logical_access_requirement
                     (req_logical_access_controls requirements))
                  control_status)
  then false
  else if negb (_meets_network_controls
                  (default no_network_requirement
                     (req_network_information_security requirements))
                  context control_status)
  then false
  else if negb (_meets_change_mgmt
                  (default no_change_mgmt_requirement
                     (req_change_mgmt_sdlc requirements))
                  context control_status)
  then false
  else if negb (_meets_remote_workforce
                  (default no_remote_workforce_requirement
                     (req_remote_workforce requirements))
                  context control_status)
  then false
  else if negb (_meets_incident_response
                  (default no_incident_response_requirement
                     (req_incident_response requirements))
                  incident_elements)
  then false
  else if negb (_meets_business_continuity
                  (default no_business_continuity_requirement
                     (req_business_continuity requirements))
                  business_continuity)
  then false
  else true.

Definition _missing_required_controls (status : StatusMap) : list str :=
  let missing :=
    control_id <$>
      List.filter (fun ctrl => required ctrl && negb (satisfied ctrl)) (values status) in
  Py.sorted missing.

Definition _build_rating_details (rating : Tier) (requirements : Requirements)
    (status : StatusMap) (incident_elements info_tech_overview : gset str)
  : Details :=
  rating_details rating
    (Py.sorted
       (control_id <$>
          List.filter (fun ctrl => satisfied ctrl && required ctrl) (values status)))
    (_missing_required_controls status)
    (Py.sorted (elements incident_elements))
    (Py.sorted (elements info_tech_overview)).

Definition fallback_reason : str :=
  "Vendor did not satisfy the minimum safeguards for an unfavorable rating.".

(** The loop of [_determine_rating] over the tiers still to be tried. *)
Fixpoint determine_from (self : RiskRatingEvaluator) (context : Context)
    (control_status : StatusMap)
    (incident_elements info_tech_overview : gset str)
    (business_continuity : bool) (order : list Tier) : result (Rating * Details) :=
  match order with
  | [] =>
      Ok (very_unfavorable,
          fallback_details fallback_reason
            (_missing_required_controls control_status))
  | rating :: rest =>
      rts ← getitem "ratings" (ratings (rules self));
      requirements ← ratings_getitem rts rating;
      if _meets_rating rating requirements context control_status
           incident_elements info_tech_overview business_continuity
      then Ok (tier rating,
               _build_rating_details rating requirements control_status
                 incident_elements info_tech_overview)
      else determine_from self context control_status incident_elements
             info_tech_overview business_continuity rest
  end.

Definition _determine_rating (self : RiskRatingEvaluator) (context : Context)
    (control_status : StatusMap)
    (incident_elements info_tech_overview : gset str)
    (business_continuity : bool) : result (Rating * Details) :=
  determine_from self context control_status incident_elements
    info_tech_overview business_continuity ratings_order.

Definition degenerate_result (r : Rating) : EvaluationResult :=
  {| res_rating := r; res_details := no_details; res_context := degenerate_context |}.

(** The part of [evaluate] after the two short-circuit returns. *)
Definition evaluate_rules (self : RiskRatingEvaluator) : result EvaluationResult :=
  context ← _build_context self;
  cross_satisfied ← _apply_cross_satisfaction self;
  control_status ← _evaluate_controls self context cross_satisfied;
  incident_elements ← _collect_incident_response_elements self;
  info_tech_overview ← _evaluate_info_tech_overview self;
  let business_continuity := _evaluate_business_continuity control_status in
  '(rating, details) ←
    _determine_rating self context control_status incident_elements
      info_tech_overview business_continuity;
  Ok {| res_rating := rating;
        res_details := details;
        res_context :=
          {| res_handles_pii := handles_pii context;
             res_remote_work_allowed := remote_work_allowed context;
             res_software_provider := software_provider context;
             res_incident_elements := Some (Py.sorted (elements incident_elements)) |} |}.

(** [evaluate] assigns [self.notes] first; the evaluator after the call is
    returned with the outcome. *)
Definition evaluate (self : RiskRatingEvaluator) (raw : str)
  : RiskRatingEvaluator * result EvaluationResult :=
  let self := {| rules := rules self; notes := _normalize raw |} in
  (self,
   if bool_decide (notes self = "") then Ok (degenerate_result no_information_provided)
   else if Py.str_in "not applicable" (notes self) || Py.search_na (notes self)
   then Ok (degenerate_result n_a)
   else evaluate_rules self).

End evaluator.

(** ** The iteration order made explicit

    Python iterates a dict in insertion order and a set in an order that
    depends on the hashes of its elements, which for strings change from
    one interpreter run to the next.  The definitions above enumerate maps
    and sets in one fixed order.  Here the order is a parameter: any
    enumeration of the entries of a dict and of the elements of a set. *)

Record Iteration : Type := {
  iter_items : StatusMap → list (str * ControlStatus);
  iter_items_perm : ∀ status, iter_items status ≡ₚ items status;
  iter_set : gset str → list str;
  iter_set_perm : ∀ X, iter_set X ≡ₚ elements X;
}.

(** [status.values()] runs through the dict in the order of [status.items()]. *)
Definition iter_values (it : Iteration) (status : StatusMap) : list ControlStatus :=
  (iter_items it status).*2.

Module Ordered.
Section iteration.
Context {U : Py.Unicode}.
Variable it : Iteration.

Definition _category_controls (prefix : str) (status : StatusMap)
  : list ControlStatus :=
  (List.filter (fun kv => Py.startswith kv.1 prefix) (iter_items it status)).*2.

Definition _meets_logical_access_controls (requirement : LogicalAccessRequirement)
    (status : StatusMap) : bool :=
  let controls := _category_controls "lac_" status in
  let required_controls := List.filter required controls in
  if truthy (lac_required_all requirement)
  then forallb satisfied required_controls
  else
    let n := count satisfied required_controls in
    if n <? default 0 (lac_min_count requirement) then false
    else
      match lac_must_include_tag requirement with
      | Some tag =>
          if negb (bool_decide (tag = ""))
             && negb (any_satisfied_with_tag tag required_controls)
          then false else true
      | None => true
      end.

Definition _meets_network_controls (requirement : NetworkRequirement)
    (context : Context) (status : StatusMap) : bool :=
  let pii_controls := List.filter required (_category_controls "net_pii_" status) in
  if truthy (pii_controls_required_if_company_handles_pii requirement)
     && handles_pii context
     && (negb (nonempty pii_controls) || negb (forallb satisfied pii_controls))
  then false
  else
    let net_controls :=
      List.filter
        (fun ctrl => Py.startswith (control_id ctrl) "net_"
                     && negb (Py.startswith (control_id ctrl) "net_pii_"))
        (iter_values it status) in
    let required_controls := List.filter required net_controls in
    if truthy (controls_required_all requirement)
    then forallb satisfied required_controls
    else
      let n := count satisfied required_controls in
      if n <? default 0 (net_min_count requirement) then false
      else
        match net_must_include_tag requirement with
        | Some tag =>
            if negb (bool_decide (tag = ""))
               && negb (any_satisfied_with_tag tag required_controls)
            then false else true
        | None => true
        end.

Definition _meets_change_mgmt (requirement : ChangeMgmtRequirement)
    (context : Context) (status : StatusMap) : bool :=
  let controls := _category_controls "chg_" status in
  let required_controls := List.filter required controls in
  if negb (software_provider context) then true
  else if truthy (chg_required_all requirement)
  then forallb satisfied required_controls
  else if truthy (require_change_mgmt_process requirement)
          && negb (status_satisfied status "chg_change_mgmt_process")
  then false
  else
    let min_count_from := default [] (min_count_from requirement) in
    if nonempty min_count_from
    then
      let satisfied_count := count (status_satisfied status) min_count_from in
      if satisfied_count <? default 0 (chg_min_count requirement)
      then false else true
    else
      let n := count satisfied required_controls in
      if n <? default 0 (chg_min_count requirement) then false else true.

Definition _meets_remote_workforce (requirement : RemoteWorkforceRequirement)
    (context : Context) (status : StatusMap) : bool :=
  let controls := _category_controls "rw_" status in
  let required_controls := List.filter required controls in
  if negb (remote_work_allowed context) then true
  else if truthy (rw_required_all requirement)
  then forallb satisfied required_controls
  else
    let n := count satisfied required_controls in
    if n <? default 0 (rw_min_count requirement) then false else true.

Definition _meets_rating (rating : Tier) (requirements : Requirements)
    (context : Context) (control_status : StatusMap)
    (incident_elements info_tech_overview : gset str)
    (business_continuity : bool) : bool :=
  if negb (_meets_info_tech_overview
             (default no_info_tech_requirement (req_info_tech_overview requirements))
             info_tech_overview)
  then false
  else if negb (_meets_logical_access_controls
                  (default no_logical_access_requirement
                     (req_logical_access_controls requirements))
                  control_status)
  then false
  else if negb (_meets_network_controls
                  (default no_network_requirement
                     (req_network_information_security requirements))
                  context control_status)
  then false
  else if negb (_meets_change_mgmt
                  (default no_change_mgmt_requirement
                     (req_change_mgmt_sdlc requirements))
                  context control_status)
  then false
  else if negb (_meets_remote_workforce
                  (default no_remote_workforce_requirement
                     (req_remote_workforce requirements))
                  context control_status)
  then false
  else if negb (_meets_incident_response
                  (default no_incident_response_requirement
                     (req_incident_response requirements))
                  incident_elements)
  then false
  else if negb (_meets_business_continuity
                  (default no_business_continuity_requirement
                     (req_business_continuity requirements))
                  business_continuity)
  then false
  else true.

Definition _missing_required_controls (status : StatusMap) : list str :=
  let missing :=
    control_id <$>
      List.filter (fun ctrl => required ctrl && negb (satisfied ctrl)) (iter_values it status) in
  Py.sorted missing.

Definition _build_rating_details (rating : Tier) (requirements : Requirements)
    (status : StatusMap) (incident_elements info_tech_overview : gset str)
  : Details :=
  rating_details rating
    (Py.sorted
       (control_id <$>
          List.filter (fun ctrl => satisfied ctrl && required ctrl) (iter_values it status)))
    (_missing_required_controls status)
    (Py.sorted (iter_set it incident_elements))
    (Py.sorted (iter_set it info_tech_overview)).

(** The loop of [_determine_rating] over the tiers still to be tried. *)
Fixpoint determine_from (self : RiskRatingEvaluator) (context : Context)
    (control_status : StatusMap)
    (incident_elements info_tech_overview : gset str)
    (business_continuity : bool) (order : list Tier) : result (Rating * Details) :=
  match order with
  | [] =>
      Ok (very_unfavorable,
          fallback_details fallback_reason
            (_missing_required_controls control_status))
  | rating :: rest =>
      rts ← getitem "ratings" (ratings (rules self));
      requirements ← ratings_getitem rts rating;
      if _meets_rating rating requirements context control_status
           incident_elements info_tech_overview business_continuity
      then Ok (tier rating,
               _build_rating_details rating requirements control_status
                 incident_elements info_tech_overview)
      else determine_from self context control_status incident_elements
             info_tech_overview business_continuity rest
  end.

Definition _determine_rating (self : RiskRatingEvaluator) (context : Context)
    (control_status : StatusMap)
    (incident_elements info_tech_overview : gset str)
    (business_continuity : bool) : result (Rating * Details) :=
  determine_from self context control_status incident_elements
    info_tech_overview business_continuity ratings_order.

(** The part of [evaluate] after the two short-circuit returns. *)
Definition evaluate_rules (self : RiskRatingEvaluator) : result EvaluationResult :=
  context ← _build_context self;
  cross_satisfied ← _apply_cross_satisfaction self;
  control_status ← _evaluate_controls self context cross_satisfied;
  incident_elements ← _collect_incident_response_elements self;
  info_tech_overview ← _evaluate_info_tech_overview self;
  let business_continuity := _evaluate_business_continuity control_status in
  '(rating, details) ←
    _determine_rating self context control_status incident_elements
      info_tech_overview business_continuity;
  Ok {| res_rating := rating;
        res_details := details;
        res_context :=
          {| res_handles_pii := handles_pii context;
             res_remote_work_allowed := remote_work_allowed context;
             res_software_provider := software_provider context;
             res_incident_elements := Some (Py.sorted (iter_set it incident_elements)) |} |}.

(** [evaluate] assigns [self.notes] first; the evaluator after the call is
    returned with the outcome. *)
Definition evaluate (self : RiskRatingEvaluator) (raw : str)
  : RiskRatingEvaluator * result EvaluationResult :=
  let self := {| rules := rules self; notes := _normalize raw |} in
  (self,
   if bool_decide (notes self = "") then Ok (degenerate_result no_information_provided)
   else if Py.str_in "not applicable" (notes self) || Py.search_na (notes self)
   then Ok (degenerate_result n_a)
   else evaluate_rules self).

End iteration.
End Ordered.

(** ** A small rule document used by the examples *)

Module Demo.

Definition control (cid ctext : str) (ctags : list str) : Control :=
  {| ctl_id := Some cid; ctl_text := Some ctext; ctl_tags := Some ctags |}.

Definition demo_conditions : Conditions :=
  {| cond_logical_access_controls :=
       Some {| pii_positive_statements := Some ["vendor handles pii"];
               enforce_mfa_critical_or_pii_if_company_handles_pii := Some true;
               passwords_encrypted_in_transit_only_if_negative_statement_present :=
                 Some ["passwords are sent in clear text"] |};
     cond_network_information_security :=
       Some {| enforce_pii_controls_if_company_handles_pii := Some true;
               do_not_enforce_need_to_know_if_least_privilege_statement_present :=
                 Some true |};
     cond_remote_workforce :=
       Some {| enforce_only_if_remote_work_allowed := Some "Remote work is allowed" |};
     cross_satisfaction :=
       Some [ {| if_any_statement_present := Some ["single sign-on is enforced"];
                 then_mark_controls_met := Some ["lac_mfa_critical_or_pii"] |} ] |}.

Definition demo_catalog : Catalog :=
  {| cat_logical_access_controls :=
       Some [ control "lac_least_privilege" "Least privilege is enforced" ["access"];
              control "lac_mfa_critical_or_pii"
                "MFA is required for critical systems" ["mfa"];
              control "lac_passwords_encrypted_in_transit"
                "Passwords are encrypted in transit" [] ];
     cat_network_information_security :=
       Some {| pii_controls :=
                 Some [ control "net_pii_need_to_know"
                          "Access to PII is need to know" [] ];
               controls :=
                 Some [ control "net_firewall" "Firewalls are in place" ["perimeter"] ] |};
     cat_change_mgmt_sdlc :=
       Some [ control "chg_change_mgmt_process"
                "A change management process exists" [] ];
     cat_remote_workforce := Some [ control "rw_vpn" "VPN is required" [] ];
     cat_business_continuity :=
       Some [ control "bcp_plan" "A business continuity plan exists" [] ];
     incident_response_elements :=
       Some ["incident response plan"; "breach notification"] |}.

Definition requirements (overview : list str) (lac_all : bool) (lac_min : Z)
    (net_all : bool) (incidents : Z) (bcp : bool) : Requirements :=
  {| req_info_tech_overview := Some {| ito_required := Some overview |};
     req_logical_access_controls :=
       Some {| lac_required_all := Some lac_all;
               lac_min_count := Some lac_min;
               lac_must_include_tag := None |};
     req_network_information_security :=
       Some {| pii_controls_required_if_company_handles_pii := Some true;
               controls_required_all := Some net_all;
               net_min_count := None;
               net_must_include_tag := None |};
     req_change_mgmt_sdlc := None;
     req_remote_workforce := None;
     req_incident_response := Some {| min_elements := Some incidents |};
     req_business_continuity := Some {| bcp_required := Some bcp |} |}.

Definition demo_ratings : Ratings :=
  {| ratings_very_favorable :=
       Some (requirements ["it overview provided"] true 0 true 2 true);
     ratings_favorable := Some (requirements [] false 2 true 1 true);
     ratings_neutral := Some (requirements [] false 1 false 0 false);
     ratings_unfavorable := Some (requirements [] false 1 false 0 false) |}.

Definition demo_rules : Rules :=
  {| conditions := Some demo_conditions;
     catalog := Some demo_catalog;
     ratings := Some demo_ratings |}.

Definition evaluator : RiskRatingEvaluator := {| rules := demo_rules; notes := "" |}.

(** The same document with a second PII control. *)
Definition two_pii_catalog : Catalog :=
  {| cat_logical_access_controls := cat_logical_access_controls demo_catalog;
     cat_network_information_security :=
       Some {| pii_controls :=
                 Some [ control "net_pii_need_to_know"
                          "Access to PII is need to know" [];
                        control "net_pii_encrypted" "PII is encrypted at rest" [] ];
               controls :=
                 Some [ control "net_firewall" "Firewalls are in place" ["perimeter"] ] |};
     cat_change_mgmt_sdlc := cat_change_mgmt_sdlc demo_catalog;
     cat_remote_workforce := cat_remote_workforce demo_catalog;
     cat_business_continuity := cat_business_continuity demo_catalog;
     incident_response_elements := incident_response_elements demo_catalog |}.

Definition two_pii_evaluator : RiskRatingEvaluator :=
  {| rules := {| conditions := Some demo_conditions;
                 catalog := Some two_pii_catalog;
                 ratings := Some demo_ratings |};
     notes := "" |}.

End Demo.

(** ** Vocabulary of the properties *)

Section vocabulary.
Context {U : Py.Unicode}.

(** [s] occurs in [n] as a contiguous run of characters. *)
Definition occurs_in (s n : str) : Prop :=
  ∃ pre post, n = pre +:+ s +:+ post.

(** The last character of [pre] is a word character; [prev] answers for an
    empty [pre]. *)
Fixpoint ends_with_word (prev : bool) (pre : str) : bool :=
  match pre with
  | EmptyStr => prev
  | Str c t => ends_with_word (Py.isword c) t
  end.

(** [n/a] stands in [n] as a token of its own: no word character touches it
    on either side. *)
Definition standalone_na (n : str) : Prop :=
  ∃ pre post, n = pre +:+ "n/a" +:+ post
              ∧ ends_with_word false pre = false
              ∧ Py.boundary_after post = true.

(** [s.split()]: the words of [s], its maximal runs of characters other
    than whitespace. *)
Fixpoint words (s : str) : list str :=
  match s with
  | EmptyStr => []
  | Str c t =>
      if Py.isspace c then words t
      else
        match t with
        | EmptyStr => [Str c EmptyStr]
        | Str d _ =>
            if Py.isspace d then Str c EmptyStr :: words t
            else match words t with
                 | w :: ws => Str c w :: ws
                 | [] => [Str c EmptyStr]
                 end
        end
  end.

(** The normal form of a text as the specification words it: the text is
    lower-cased, the mis-encoded ellipsis is replaced, and what is left is
    its words with one space between them. *)
Definition normal_form (raw : str) : str :=
  Py.join " " (words (Py.replace "â€¦" "..." (Py.lower raw))).

(** The two results that are returned before any rule is read. *)
Definition short_circuit (r : Rating) : EvaluationResult :=
  {| res_rating := r;
     res_details := no_details;
     res_context :=
       {| res_handles_pii := false;
          res_remote_work_allowed := false;
          res_software_provider := false;
          res_incident_elements := None |} |}.

(** The control map that [evaluate] builds for the notes [raw]. *)
Definition control_map (self : RiskRatingEvaluator) (raw : str) : result StatusMap :=
  let self := (evaluate self raw).1 in
  context ← _build_context self;
  cross_satisfied ← _apply_cross_satisfaction self;
  _evaluate_controls self context cross_satisfied.

(** The controls of the catalog in the order [_evaluate_controls] visits them. *)
Definition catalog_controls (cat : Catalog) : list Control :=
  let network_catalog :=
    default no_network_catalog (cat_network_information_security cat) in
  default [] (cat_logical_access_controls cat)
  ++ default [] (pii_controls network_catalog)
  ++ default [] (controls network_catalog)
  ++ default [] (cat_change_mgmt_sdlc cat)
  ++ default [] (cat_remote_workforce cat)
  ++ default [] (cat_business_continuity cat).

(** A step of a loop of [_evaluate_controls] records the status of the
    control it visits, and records it satisfied when the control is
    cross-satisfied. *)
Definition registers (cross_satisfied : gset str)
    (step : StatusMap → Control → result StatusMap) : Prop :=
  ∀ status control status',
    step status control = Ok status' →
    ∃ cid req sat,
      ctl_id control = Some cid
      ∧ status' = register_control status cid req sat
                    (default "" (ctl_text control)) (default [] (ctl_tags control))
      ∧ (cid ∈ cross_satisfied → sat = true).

(** The value of a computation that returned, [d] for one that raised. *)
Definition returned {A : Type} (d : A) (m : result A) : A :=
  match m with
  | Ok a => a
  | Raise _ => d
  end.

Definition is_Ok {A : Type} (m : result A) : bool :=
  match m with
  | Ok _ => true
  | Raise _ => false
  end.

End vocabulary.

(** Runs of the evaluator on the rule document of [Demo]. *)
Module DemoRuns.
Section runs.
Context {U : Py.Unicode}.

Definition run (raw : str) : RiskRatingEvaluator := (evaluate Demo.evaluator raw).1.

Definition outcome (raw : str) : EvaluationResult :=
  returned (degenerate_result n_a) (evaluate Demo.evaluator raw).2.

Definition context_of (raw : str) : Context :=
  returned {| handles_pii := false; remote_work_allowed := false;
              software_provider := false |}
    (_build_context (run raw)).

Definition cross_of (raw : str) : gset str :=
  returned ∅ (_apply_cross_satisfaction (run raw)).

Definition status_of (raw : str) : StatusMap :=
  returned ∅ (_evaluate_controls (run raw) (context_of raw) (cross_of raw)).

Definition nothing : str := "Nothing to see".
Definition sso : str := "Single sign-on is enforced.".
Definition least_privilege : str := "Least privilege is enforced.".
Definition neutral_notes : str :=
  "Least privilege is enforced. Firewalls are in place.".
Definition pii_notes : str :=
  "Vendor handles PII. Access to PII is need to know. MFA is required for critical systems. Firewalls are in place.".
Definition pii_notes_extended : str :=
  pii_notes +:+ " Least privilege is enforced.".
Definition favorable_notes : str :=
  neutral_notes
  +:+ " Passwords are encrypted in transit. Incident response plan. A business continuity plan exists.".
Definition password_notes : str :=
  "Passwords are encrypted in transit, but passwords are sent in clear text on the legacy portal.".
Definition two_pii_notes : str :=
  "Vendor handles PII. Access to PII is need to know. PII is encrypted at rest. MFA is required for critical systems. Firewalls are in place.".
Definition two_pii_notes_extended : str :=
  two_pii_notes +:+ " Least privilege is enforced.".
Definition neutral_notes_with_pii : str :=
  neutral_notes +:+ " Vendor handles PII.".
Definition neutral_notes_with_na : str :=
  neutral_notes +:+ " N/A".
Definition blank_notes : str := Str 160%N (Str 32%N (Str 9%N EmptyStr)).

End runs.
End DemoRuns.

Section orders.
Context {U : Py.Unicode}.

(** The tiers by favorability; the two short-circuit ratings stand aside. *)
Definition tier_rank (t : Tier) : nat :=
  match t with
  | very_favorable => 4%nat
  | favorable => 3%nat
  | neutral => 2%nat
  | unfavorable => 1%nat
  end.

Definition favorability (r : Rating) : option nat :=
  match r with
  | tier t => Some (tier_rank t)
  | very_unfavorable => Some 0%nat
  | no_information_provided | n_a => None
  end.

(** [after] is a rating of the tier order at least as favorable as [before]. *)
Definition never_worse (before after : Rating) : Prop :=
  ∃ a b, favorability before = Some a ∧ favorability after = Some b ∧ (a ≤ b)%nat.

(** The status [c'] of the control [k] after the notes were extended,
    against its status [c] before: the same control, satisfied if it was,
    and required as before unless it is the need-to-know control, which may
    have stopped being required. *)
Definition grows (k : str) (c c' : ControlStatus) : Prop :=
  control_id c = k ∧ control_id c' = k ∧ tags c = tags c'
  ∧ (satisfied c = true → satisfied c' = true)
  ∧ (required c' = required c
     ∨ (k = "net_pii_need_to_know" ∧ required c = true ∧ required c' = false)).

(** Two control maps over the same identifiers, related by [grows]. *)
Definition status_grows (status status' : StatusMap) : Prop :=
  map_Forall2 grows status status'.

(** Some control of the PII group is required. *)
Definition pii_required (status : StatusMap) : Prop :=
  ∃ k ctrl,
    status !! k = Some ctrl ∧ Py.startswith k "net_pii_" = true ∧ required ctrl = true.

(** The three positive tests of [_statement_satisfies_control]: the text of
    the control, its identifier, the tail of the identifier joined by
    spaces. *)
Definition positive_evidence (self : RiskRatingEvaluator) (cid ctext : str) : bool :=
  let token := Py.join " " (tail (Py.split_nonword cid)) in
  _statement_present (notes self) ctext
  || negb (bool_decide (cid = "")) && Py.str_in cid (notes self)
  || bool_decide (1 < length (Py.split_nonword cid))%nat
     && (negb (bool_decide (token = "")) && Py.str_in token (notes self)).

(** A map whose statuses carry their own key. *)
Definition keyed (status : StatusMap) : Prop :=
  ∀ k ctrl, status !! k = Some ctrl → control_id ctrl = k.

(** A selection that picks the same controls from both maps. *)
Definition stable (q : str * ControlStatus → bool) : Prop :=
  ∀ k ctrl ctrl', grows k ctrl ctrl' → q (k, ctrl) = q (k, ctrl').

(** The only whitespace in [s] is the space character, and no two spaces
    are adjacent; [prev_space] tells that a space precedes [s]. *)
Fixpoint single_spaced (prev_space : bool) (s : str) : bool :=
  match s with
  | EmptyStr => true
  | Str c t =>
      if Py.isspace c
      then bool_decide (c = 32%N) && negb prev_space && single_spaced true t
      else single_spaced false t
  end.

Definition starts_with_space (s : str) : bool :=
  match s with
  | EmptyStr => false
  | Str c _ => Py.isspace c
  end.

Fixpoint ends_with_space (s : str) : bool :=
  match s with
  | EmptyStr => false
  | Str c EmptyStr => Py.isspace c
  | Str _ t => ends_with_space t
  end.

(** Every character of [s] is a word character. *)
Fixpoint all_word (s : str) : bool :=
  match s with
  | EmptyStr => true
  | Str c t => Py.isword c && all_word t
  end.


(** Two iteration orders: the enumeration used by the definitions above, and
    the same enumeration backwards. *)
Definition canonical_order : Iteration :=
  {| iter_items := items;
     iter_items_perm := λ status, reflexivity (items status);
     iter_set := elements;
     iter_set_perm := λ X, reflexivity (elements X) |}.

Definition reversed_order : Iteration :=
  {| iter_items := λ status, reverse (items status);
     iter_items_perm := λ status, reverse_Permutation (items status);
     iter_set := λ X, reverse (elements X);
     iter_set_perm := λ X, reverse_Permutation (elements X) |}.

(** The identifiers of the required, unsatisfied controls in the order of
    the iteration, before they are sorted. *)
Definition missing_unsorted (it : Iteration) (status : StatusMap) : list str :=
  control_id <$>
    List.filter (λ ctrl, required ctrl && negb (satisfied ctrl)) (iter_values it status).

End orders.

(** Tables for the examples: text outside ASCII is left as it is and holds
    no letter or digit.  These are not the tables of an interpreter; the
    examples are ASCII text, on which no table is consulted, and the
    mis-encoded ellipsis, which has no upper case. *)
Definition plain_tables : Py.Unicode :=
  {| Py.unicode_lower := λ s, s;
     Py.unicode_isalnum := λ _, false;
     Py.unicode_lower_blank := λ s, eq_refl |}.

(** ** The string primitives on examples *)

Section primitives_examples.
Context {U : Py.Unicode}.


Example lower_ex : Py.lower "Not Applicable" = "not applicable".
Proof. reflexivity. Qed.
Example replace_ex : Py.replace "â€¦" "..." "waitâ€¦ and â€¦" = "wait... and ...".
Proof. reflexivity. Qed.
Example replace_ex2 : Py.replace "aa" "b" "aaaaa" = "bba".
Proof. reflexivity. Qed.
Example split_ex : Py.split_nonword "-a--b-" = [""; "a"; "b"; ""].
Proof. reflexivity. Qed.
Example split_ex2 : Py.split_nonword "lac_mfa_critical" = ["lac_mfa_critical"].
Proof. reflexivity. Qed.
Example search_ex : Py.search_na "status: n/a." = true /\ Py.search_na "n/about" = false
  /\ Py.search_na "in/a" = false /\ Py.search_na "n/a" = true.
Proof. repeat split; reflexivity. Qed.
Example sorted_ex : Py.sorted ["net_b"; "lac_a"; "bcp_plan"] = ["bcp_plan"; "lac_a"; "net_b"].
Proof. vm_compute. reflexivity. Qed.
Example strip_ex : Py.strip (Py.sub_spaces "  a   b  ") = "a b".
Proof. reflexivity. Qed.
Example isspace_ex :
  Py.isspace 160%N = true ∧ Py.isspace 12288%N = true ∧ Py.isspace 95%N = false.
Proof. repeat split; reflexivity. Qed.
Example words_ex : words (" a  bc" +:+ Str 9%N "d ") = ["a"; "bc"; "d"].
Proof. reflexivity. Qed.
Example normal_form_ex : normal_form (" Not" +:+ Str 10%N " APPLICABLE ") = "not applicable".
Proof. reflexivity. Qed.

End primitives_examples.
(** ** Substrings *)

Section substrings.
Context {U : Py.Unicode}.
Implicit Types s p n pre post : str.

Lemma append_nil_l s : "" +:+ s = s.
Proof. reflexivity. Qed.

Lemma append_cons c s p : Str c s +:+ p = Str c (s +:+ p).
Proof. reflexivity. Qed.

Lemma append_nil_r s : s +:+ "" = s.
Proof. induction s as [|c s IH]; [done|]. by rewrite append_cons, IH. Qed.

Lemma append_assoc s p n : (s +:+ p) +:+ n = s +:+ p +:+ n.
Proof. induction s as [|c s IH]; [done|]. by rewrite !append_cons, IH. Qed.

Lemma startswith_spec s p : Py.startswith s p = true ↔ ∃ post, s = p +:+ post.
Proof.
  revert s. induction p as [|a p IH]; intros s; simpl.
  - split; [intros _; exists s; reflexivity | reflexivity].
  - destruct s as [|b s].
    + split; [done | intros [post Hpost]; discriminate Hpost].
    + rewrite andb_true_iff, bool_decide_eq_true, IH. split.
      * intros [-> [post ->]]. by exists post.
      * intros [post Hpost]. rewrite append_cons in Hpost.
        injection Hpost as -> ->. eauto.
Qed.

Lemma str_in_spec s n : Py.str_in s n = true ↔ occurs_in s n.
Proof.
  unfold occurs_in. induction n as [|c n IH]; simpl.
  - rewrite orb_false_r, startswith_spec. split.
    + intros [post Hpost]. by exists "", post.
    + intros ([|??] & post & Hpre); [|discriminate Hpre]. by exists post.
  - rewrite orb_true_iff, startswith_spec, IH. split.
    + intros [[post Hpost]|(pre & post & ->)].
      * by exists "", post.
      * by exists (Str c pre), post.
    + intros ([|c' pre] & post & Hn).
      * left. by exists post.
      * right. rewrite append_cons in Hn. injection Hn as -> ->. eauto.
Qed.

Lemma occurs_in_refl s : occurs_in s s.
Proof. exists "", "". by rewrite append_nil_r. Qed.

Lemma occurs_in_trans s p n : occurs_in s p → occurs_in p n → occurs_in s n.
Proof.
  intros (pre1 & post1 & ->) (pre2 & post2 & ->).
  exists (pre2 +:+ pre1), (post1 +:+ post2). by rewrite !append_assoc.
Qed.


Lemma str_in_mono s n n' :
  occurs_in n n' → Py.str_in s n = true → Py.str_in s n' = true.
Proof. rewrite !str_in_spec. eauto using occurs_in_trans. Qed.

Lemma after_prefix_spec p s rest : Py.after_prefix p s = Some rest ↔ s = p +:+ rest.
Proof.
  revert s. induction p as [|a p IH]; intros s; cbn.
  - split; [by intros [= ->] | by intros ->].
  - destruct s as [|b s]; [done|]. case_bool_decide as Hab.
    + subst b. rewrite IH. split; [by intros -> | by intros [= ->]].
    + split; [done | intros [= ? _]; congruence].
Qed.

Lemma na_here s :
  match Py.after_prefix "n/a" s with
  | Some rest => Py.boundary_after rest
  | None => false
  end = true →
  ∃ rest, s = "n/a" +:+ rest ∧ Py.boundary_after rest = true.
Proof.
  destruct (Py.after_prefix "n/a" s) as [rest|] eqn:Hrest; [|done].
  apply after_prefix_spec in Hrest. eauto.
Qed.

Lemma na_here_1 rest :
  Py.boundary_after rest = true →
  match Py.after_prefix "n/a" ("n/a" +:+ rest) with
  | Some rest => Py.boundary_after rest
  | None => false
  end = true.
Proof. done. Qed.

Lemma search_na_go_spec prev n :
  Py.search_na_go prev n = true ↔
  ∃ pre post, n = pre +:+ "n/a" +:+ post
              ∧ ends_with_word prev pre = false
              ∧ Py.boundary_after post = true.
Proof.
  revert prev. induction n as [|c n IH]; intros prev.
  - split; [done|]. intros ([|??] & post & Hn & _); discriminate Hn.
  - cbn [Py.search_na_go]. rewrite orb_true_iff, andb_true_iff, negb_true_iff, IH.
    split.
    + intros [[-> Hhere]|(pre & post & -> & Hpre & Hpost)].
      * destruct (na_here (Str c n) Hhere) as (rest & [= -> ->] & Hrest).
        by exists "", rest.
      * by exists (Str c pre), post.
    + intros ([|c' pre] & post & Hn & Hpre & Hpost).
      * left. rewrite append_nil_l in Hn. rewrite Hn. cbn in Hpre. subst prev.
        split; [done|]. by apply na_here_1.
      * right. rewrite append_cons in Hn. injection Hn as -> ->.
        by exists pre, post.
Qed.

Lemma search_na_spec n : Py.search_na n = true ↔ standalone_na n.
Proof. apply search_na_go_spec. Qed.

End substrings.

(** ** The statement matcher *)

Section matcher.
Context {U : Py.Unicode}.

Lemma statement_present_true (corpus statement : str) :
  _statement_present corpus statement = true ↔
  statement ≠ "" ∧ occurs_in (_normalize statement) corpus.
Proof.
  unfold _statement_present. case_bool_decide as Hempty.
  - split; [done | by intros [? _]].
  - rewrite str_in_spec. split; [intros ?; by split | by intros [_ ?]].
Qed.

Lemma statement_present_mono (n n' statement : str) :
  occurs_in n n' →
  _statement_present n statement = true → _statement_present n' statement = true.
Proof.
  rewrite !statement_present_true. intros Hsub [? ?].
  eauto using occurs_in_trans.
Qed.

(** ** The short-circuit results *)

Lemma evaluate_empty_notes (self : RiskRatingEvaluator) (raw : str) :
  _normalize raw = "" →
  (evaluate self raw).2 = Ok (degenerate_result no_information_provided).
Proof. unfold evaluate; cbn [snd notes]. by intros ->. Qed.

End matcher.

(** ** The order of [sorted] *)

Lemma leb_cons (a b : char) (s t : str) :
  Py.leb (Str a s) (Str b t) = true ↔ (a < b)%N ∨ a = b ∧ Py.leb s t = true.
Proof.
  cbn [Py.leb]. rewrite orb_true_iff, andb_true_iff, N.ltb_lt, N.eqb_eq. tauto.
Qed.

#[global] Instance le_refl : Reflexive Py.le.
Proof.
  intros s. unfold Py.le. induction s as [|a s IH]; [done|].
  apply leb_cons. by right.
Qed.

#[global] Instance le_trans : Transitive Py.le.
Proof.
  unfold Py.le. intros s. induction s as [|a s IH]; intros t u; [done|].
  destruct t as [|b t]; [done|]. destruct u as [|c u]; [done|].
  rewrite !leb_cons. intros [?|[-> ?]] [?|[-> ?]]; [left; lia|by left..|].
  right. split; [done|]. by eapply IH.
Qed.

#[global] Instance le_antisymm : AntiSymm (=) Py.le.
Proof.
  unfold Py.le. intros s. induction s as [|a s IH]; intros t.
  - by destruct t.
  - destruct t as [|b t]; [done|]. rewrite !leb_cons.
    intros [?|[-> ?]] [?|[? ?]]; try lia. f_equal. by apply IH.
Qed.

#[global] Instance le_total : Total Py.le.
Proof.
  unfold Py.le. intros s. induction s as [|a s IH]; intros t.
  - by left.
  - destruct t as [|b t]; [by right|]. rewrite !leb_cons.
    destruct (N.lt_trichotomy a b) as [?|[->|?]]; [by left; left| |by right; left].
    destruct (IH t); [left|right]; by right.
Qed.

(** ** The exception monad and the loops *)

Section control_evaluator.
Context {U : Py.Unicode}.

Lemma bind_Ok {A B : Type} (m : result A) (f : A → result B) (b : B) :
  m ≫= f = Ok b ↔ ∃ a, m = Ok a ∧ f a = Ok b.
Proof.
  destruct m as [a|e]; cbn.
  - split; [by exists a | by intros (? & [= <-] & ?)].
  - split; [done | by intros (? & ? & _)].
Qed.

Lemma bind_Raise {A B : Type} (m : result A) (f : A → result B) (e : PyError) :
  m = Raise e → m ≫= f = Raise e.
Proof. by intros ->. Qed.

Lemma getitem_Ok {A : Type} (key : str) (d : option A) (a : A) :
  getitem key d = Ok a ↔ d = Some a.
Proof. destruct d; cbn; split; congruence. Qed.

Lemma for_each_app {A S : Type} (body : S → A → result S) (l1 l2 : list A) (s : S) :
  for_each body (l1 ++ l2) s = for_each body l1 s ≫= for_each body l2.
Proof.
  revert s. induction l1 as [|x l1 IH]; intros s; [done|].
  cbn [for_each app]. destruct (body s x) as [s'|e]; cbn; [apply IH | done].
Qed.

(** An invariant of the loop body is an invariant of the loop. *)
Lemma for_each_invariant {A S : Type} (body : S → A → result S) (I : S → Prop)
    (l : list A) (s s' : S) :
  (∀ s x s', x ∈ l → I s → body s x = Ok s' → I s') →
  I s → for_each body l s = Ok s' → I s'.
Proof.
  revert s. induction l as [|x l IH]; intros s Hbody Hs Hrun; cbn in Hrun.
  - by injection Hrun as <-.
  - apply bind_Ok in Hrun as (s1 & Hstep & Hrun).
    apply (IH s1); [| |done].
    + intros ????. apply Hbody. by right.
    + eapply Hbody; [by left|done..].
Qed.

Ltac inv_bind H :=
  repeat match type of H with
         | _ ≫= _ = Ok _ =>
             let a := fresh "a" in
             let Ha := fresh "Ha" in
             apply bind_Ok in H as (a & Ha & H)
         | getitem _ _ = Ok _ => apply getitem_Ok in H
         | Ok _ = Ok _ => injection H as H
         end.

(** ** The loops of the control evaluator *)

Section control_steps.
Context (self : RiskRatingEvaluator) (cond : Conditions) (context : Context)
        (cross_satisfied : gset str).

Lemma check_control_registers required control status status' :
  check_control self cross_satisfied status control required = Ok status' →
  ∃ cid sat,
    ctl_id control = Some cid
    ∧ status' = register_control status cid required sat
                  (default "" (ctl_text control)) (default [] (ctl_tags control))
    ∧ (cid ∈ cross_satisfied → sat = true).
Proof.
  unfold check_control. intros H.
  apply bind_Ok in H as (cid & Hid%getitem_Ok & H).
  apply bind_Ok in H as (sat & Hsat & [= <-]).
  exists cid, sat. split_and!; [done..|].
  intros Hin. rewrite bool_decide_eq_true_2 in Hsat by done. by injection Hsat.
Qed.

Lemma logical_access_step_registers :
  registers cross_satisfied (logical_access_step self cond context cross_satisfied).
Proof.
  intros status control status' H. unfold logical_access_step in H.
  apply bind_Ok in H as (cid & _ & H).
  apply check_control_registers in H as (? & ? & ? & ? & ?). eauto 10.
Qed.

Lemma pii_step_registers :
  registers cross_satisfied (pii_step self cond context cross_satisfied).
Proof.
  intros status control status' H. unfold pii_step in H.
  apply bind_Ok in H as (cid & Hid%getitem_Ok & H).
  assert (∀ req, check_control self cross_satisfied status control req = Ok status' →
    ∃ cid req sat,
      ctl_id control = Some cid
      ∧ status' = register_control status cid req sat
                    (default "" (ctl_text control)) (default [] (ctl_tags control))
      ∧ (cid ∈ cross_satisfied → sat = true)) as Hcheck.
  { intros req (? & ? & ? & ? & ?)%check_control_registers. eauto 10. }
  destruct (_ && _); [|by eapply Hcheck].
  destruct (status !! "lac_least_privilege") as [lp|]; [|by eapply Hcheck].
  destruct (satisfied lp); [|by eapply Hcheck].
  injection H as <-. by exists cid, false, true.
Qed.

Lemma always_required_step_registers :
  registers cross_satisfied (always_required_step self cross_satisfied).
Proof.
  intros status control status' H.
  apply check_control_registers in H as (? & ? & ? & ? & ?). eauto 10.
Qed.

Lemma change_mgmt_step_registers :
  registers cross_satisfied (change_mgmt_step self context cross_satisfied).
Proof.
  intros status control status' H.
  apply check_control_registers in H as (? & ? & ? & ? & ?). eauto 10.
Qed.

Lemma remote_workforce_step_registers :
  registers cross_satisfied (remote_workforce_step self context cross_satisfied).
Proof.
  intros status control status' H.
  apply check_control_registers in H as (? & ? & ? & ? & ?). eauto 10.
Qed.

End control_steps.

Section registering_loops.
Context (cross_satisfied : gset str)
        (step : StatusMap → Control → result StatusMap)
        (Hstep : registers cross_satisfied step).

(** What a registering loop preserves: anything that every registration
    of a status preserves. *)
Lemma registering_loop_invariant (I : StatusMap → Prop) l status status' :
  (∀ st cid req sat ctext ctags,
      I st → (cid ∈ cross_satisfied → sat = true) →
      I (register_control st cid req sat ctext ctags)) →
  I status → for_each step l status = Ok status' → I status'.
Proof.
  intros Hreg. apply for_each_invariant.
  intros st control st' _ Hst (cid & req & sat & _ & -> & Hsat)%Hstep. by apply Hreg.
Qed.

(** A loop leaves alone the identifiers of the controls it does not visit. *)
Lemma registering_loop_other l status status' k :
  for_each step l status = Ok status' →
  Some k ∉ ctl_id <$> l → status' !! k = status !! k.
Proof.
  revert status. induction l as [|control l IH]; intros status Hrun Hk; cbn in Hrun.
  - by injection Hrun as <-.
  - apply bind_Ok in Hrun as (st1 & Hst1 & Hrun).
    rewrite fmap_cons, not_elem_of_cons in Hk. destruct Hk as [Hne Hk].
    rewrite (IH st1) by done.
    apply Hstep in Hst1 as (cid & req & sat & Hid & -> & _).
    unfold register_control. apply lookup_insert_ne. congruence.
Qed.

(** Every control the loop visits has a status afterwards, and so has
    every control that had one before. *)
Lemma registering_loop_dom l status status' :
  for_each step l status = Ok status' →
  dom status ⊆ dom status'
  ∧ ∀ control, control ∈ l → ∃ cid, ctl_id control = Some cid ∧ cid ∈ dom status'.
Proof.
  revert status. induction l as [|control l IHl]; intros status Hrun; cbn in Hrun.
  - injection Hrun as <-. split; [done|]. by intros ? ?%elem_of_nil.
  - apply bind_Ok in Hrun as (st1 & Hst1 & Hrun).
    destruct (IHl _ Hrun) as [Hdom Hall].
    apply Hstep in Hst1 as (cid & req & sat & Hid & -> & _).
    unfold register_control in Hdom. rewrite dom_insert_L in Hdom. split.
    + intros k Hk. apply Hdom, elem_of_union. by right.
    + intros c [->|Hc]%elem_of_cons; [|by apply Hall].
      exists cid. split; [done|]. apply Hdom, elem_of_union. left.
      by apply elem_of_singleton.
Qed.

End registering_loops.

(** ** The control evaluator *)

Section evaluate_controls.
Context (self : RiskRatingEvaluator) (context : Context)
        (cross_satisfied : gset str).

(** The six loops of [_evaluate_controls], one after the other. *)
Lemma evaluate_controls_loops status :
  _evaluate_controls self context cross_satisfied = Ok status ↔
  ∃ st1 st2 st3 st4 st5,
    let cond := default no_conditions (conditions (rules self)) in
    let cat := default no_catalog (catalog (rules self)) in
    let network_catalog :=
      default no_network_catalog (cat_network_information_security cat) in
    for_each (logical_access_step self cond context cross_satisfied)
      (default [] (cat_logical_access_controls cat)) ∅ = Ok st1
    ∧ for_each (pii_step self cond context cross_satisfied)
        (default [] (pii_controls network_catalog)) st1 = Ok st2
    ∧ for_each (always_required_step self cross_satisfied)
        (default [] (controls network_catalog)) st2 = Ok st3
    ∧ for_each (change_mgmt_step self context cross_satisfied)
        (default [] (cat_change_mgmt_sdlc cat)) st3 = Ok st4
    ∧ for_each (remote_workforce_step self context cross_satisfied)
        (default [] (cat_remote_workforce cat)) st4 = Ok st5
    ∧ for_each (always_required_step self cross_satisfied)
        (default [] (cat_business_continuity cat)) st5 = Ok status.
Proof.
  unfold _evaluate_controls. split.
  - intros H. inv_bind H. subst. do 5 eexists. cbn zeta. split_and!; eassumption.
  - cbn zeta. intros (st1 & st2 & st3 & st4 & st5 & H1 & H2 & H3 & H4 & H5 & H6).
    rewrite H1; cbn. rewrite H2; cbn. rewrite H3; cbn. rewrite H4; cbn.
    rewrite H5; cbn. by rewrite H6.
Qed.

Lemma evaluate_controls_invariant (I : StatusMap → Prop) status :
  I ∅ →
  (∀ st cid req sat ctext ctags,
      I st → (cid ∈ cross_satisfied → sat = true) →
      I (register_control st cid req sat ctext ctags)) →
  _evaluate_controls self context cross_satisfied = Ok status → I status.
Proof.
  intros Hempty Hreg
    (st1 & st2 & st3 & st4 & st5 & H1 & H2 & H3 & H4 & H5 & H6)%evaluate_controls_loops.
  eapply registering_loop_invariant in H1;
    [|apply logical_access_step_registers|done..].
  eapply registering_loop_invariant in H2; [|apply pii_step_registers|done..].
  eapply registering_loop_invariant in H3;
    [|apply always_required_step_registers|done..].
  eapply registering_loop_invariant in H4; [|apply change_mgmt_step_registers|done..].
  eapply registering_loop_invariant in H5;
    [|apply remote_workforce_step_registers|done..].
  eapply registering_loop_invariant in H6;
    [|apply always_required_step_registers|done..].
  done.
Qed.

(** Each status is filed under its own identifier. *)
Lemma evaluate_controls_key status k ctrl :
  _evaluate_controls self context cross_satisfied = Ok status →
  status !! k = Some ctrl → control_id ctrl = k.
Proof.
  intros Hrun. revert k ctrl.
  apply (evaluate_controls_invariant
           (λ st, ∀ k ctrl, st !! k = Some ctrl → control_id ctrl = k) status);
    [done| |done].
  intros st cid req sat ctext ctags Hst _ k ctrl. unfold register_control.
  rewrite lookup_insert. case_decide as Hk; [|by apply Hst].
  intros [= <-]. by subst.
Qed.

(** A cross-satisfied identifier is never recorded unsatisfied. *)
Lemma evaluate_controls_cross status k ctrl :
  _evaluate_controls self context cross_satisfied = Ok status →
  status !! k = Some ctrl → k ∈ cross_satisfied → satisfied ctrl = true.
Proof.
  intros Hrun. revert k ctrl.
  apply (evaluate_controls_invariant
           (λ st, ∀ k ctrl, st !! k = Some ctrl → k ∈ cross_satisfied →
                            satisfied ctrl = true) status);
    [done| |done].
  intros st cid req sat ctext ctags Hst Hsat k ctrl. unfold register_control.
  rewrite lookup_insert. case_decide as Hk; [|by apply Hst].
  intros [= <-] Hin. subst. by apply Hsat.
Qed.

(** Every control of the catalog has a status once the evaluator returns. *)
Lemma evaluate_controls_total status control :
  _evaluate_controls self context cross_satisfied = Ok status →
  control ∈ catalog_controls (default no_catalog (catalog (rules self))) →
  ∃ cid, ctl_id control = Some cid ∧ is_Some (status !! cid).
Proof.
  intros (st1 & st2 & st3 & st4 & st5 & H1 & H2 & H3 & H4 & H5 & H6)%evaluate_controls_loops
    Hin.
  eapply registering_loop_dom in H1 as [D1 A1]; [|apply logical_access_step_registers].
  eapply registering_loop_dom in H2 as [D2 A2]; [|apply pii_step_registers].
  eapply registering_loop_dom in H3 as [D3 A3]; [|apply always_required_step_registers].
  eapply registering_loop_dom in H4 as [D4 A4]; [|apply change_mgmt_step_registers].
  eapply registering_loop_dom in H5 as [D5 A5]; [|apply remote_workforce_step_registers].
  eapply registering_loop_dom in H6 as [D6 A6]; [|apply always_required_step_registers].
  unfold catalog_controls in Hin. cbn zeta in Hin.
  rewrite !elem_of_app in Hin.
  assert (dom st5 ⊆ dom status) as E5 by done.
  assert (dom st4 ⊆ dom status) as E4 by (by etrans).
  assert (dom st3 ⊆ dom status) as E3 by (by etrans).
  assert (dom st2 ⊆ dom status) as E2 by (by etrans).
  assert (dom st1 ⊆ dom status) as E1 by (by etrans).
  assert (∃ cid, ctl_id control = Some cid ∧ cid ∈ dom status) as (cid & ? & ?).
  { destruct Hin as [Hin|[Hin|[Hin|[Hin|[Hin|Hin]]]]];
      [apply A1 in Hin|apply A2 in Hin|apply A3 in Hin
      |apply A4 in Hin|apply A5 in Hin|apply A6 in Hin];
      destruct Hin as (cid & ? & ?); exists cid; (split; [done|]); auto. }
  exists cid. split; [done|]. by apply elem_of_dom.
Qed.

End evaluate_controls.

End control_evaluator.

(** ** Lists computed from the control map *)

Section details.
Context {U : Py.Unicode}.

Lemma List_filter_filter {A : Type} (p : A → bool) (l : list A) :
  List.filter p l = filter (λ x, p x = true) l.
Proof.
  induction l as [|x l IHl]; [done|]. cbn [List.filter]. rewrite filter_cons.
  destruct (p x) eqn:Hp; case_decide; congruence.
Qed.

Lemma elem_of_List_filter {A : Type} (p : A → bool) (l : list A) (x : A) :
  x ∈ List.filter p l ↔ p x = true ∧ x ∈ l.
Proof. by rewrite List_filter_filter, list_elem_of_filter. Qed.

Lemma elem_of_sorted (l : list str) (s : str) : s ∈ Py.sorted l ↔ s ∈ l.
Proof. unfold Py.sorted. by rewrite merge_sort_Permutation. Qed.

Lemma NoDup_sorted (l : list str) : NoDup (Py.sorted l) ↔ NoDup l.
Proof. unfold Py.sorted. by rewrite merge_sort_Permutation. Qed.

(** [sorted] returns an ascending list, and it returns the same list for any
    two orders of the same elements: the order in which a [set] or a [dict]
    is walked does not show in a sorted result. *)
Lemma sorted_ascending (l : list str) : StronglySorted Py.le (Py.sorted l).
Proof. apply (StronglySorted_merge_sort _). Qed.

Lemma sorted_order_independent (l1 l2 : list str) :
  l1 ≡ₚ l2 → Py.sorted l1 = Py.sorted l2.
Proof.
  intros Hperm. apply (StronglySorted_unique Py.le); [apply sorted_ascending..|].
  unfold Py.sorted. by rewrite !merge_sort_Permutation.
Qed.

Lemma elem_of_values (status : StatusMap) (ctrl : ControlStatus) :
  ctrl ∈ values status ↔ ∃ k, status !! k = Some ctrl.
Proof.
  unfold values, items. rewrite list_elem_of_fmap. split.
  - intros ([k c] & -> & Hin%elem_of_map_to_list). by exists k.
  - intros [k Hk]. exists (k, ctrl). by rewrite elem_of_map_to_list.
Qed.

Lemma NoDup_values (status : StatusMap) : keyed status → NoDup (values status).
Proof.
  intros Hkey. unfold values, items.
  apply NoDup_fmap_2_strong; [|apply NoDup_map_to_list].
  intros [k c] [k' c'] Hin%elem_of_map_to_list Hin'%elem_of_map_to_list Heq.
  cbn in *. subst c'. f_equal.
  by rewrite <-(Hkey _ _ Hin), <-(Hkey _ _ Hin').
Qed.

Lemma NoDup_selected_ids (status : StatusMap) (p : ControlStatus → bool) :
  keyed status → NoDup (control_id <$> List.filter p (values status)).
Proof.
  intros Hkey. rewrite List_filter_filter.
  apply NoDup_fmap_2_strong; [|by apply NoDup_filter, NoDup_values].
  intros c c' [_ [k Hk]%elem_of_values]%list_elem_of_filter
    [_ [k' Hk']%elem_of_values]%list_elem_of_filter Heq.
  rewrite (Hkey _ _ Hk), (Hkey _ _ Hk') in Heq. subst k'. congruence.
Qed.

Lemma elem_of_selected_ids (status : StatusMap) (p : ControlStatus → bool) cid :
  keyed status →
  cid ∈ control_id <$> List.filter p (values status) ↔
  ∃ ctrl, status !! cid = Some ctrl ∧ p ctrl = true.
Proof.
  intros Hkey. rewrite list_elem_of_fmap. split.
  - intros (c & -> & [Hp [k Hk]%elem_of_values]%elem_of_List_filter).
    exists c. by rewrite (Hkey _ _ Hk).
  - intros (c & Hc & Hp). exists c. split; [by rewrite (Hkey _ _ Hc)|].
    apply elem_of_List_filter. split; [done|]. apply elem_of_values. eauto.
Qed.

Lemma missing_required_controls_spec (status : StatusMap) (cid : str) :
  keyed status →
  cid ∈ _missing_required_controls status ↔
  ∃ ctrl, status !! cid = Some ctrl ∧ required ctrl = true ∧ satisfied ctrl = false.
Proof.
  intros Hkey. unfold _missing_required_controls.
  rewrite elem_of_sorted, elem_of_selected_ids by done.
  by setoid_rewrite andb_true_iff; setoid_rewrite negb_true_iff.
Qed.

(** ** The outcome of [evaluate] *)

Lemma evaluate_self (self : RiskRatingEvaluator) (raw : str) :
  (evaluate self raw).1 = {| rules := rules self; notes := _normalize raw |}.
Proof. reflexivity. Qed.

(** [evaluate] returns one of the two short-circuit results or goes through
    the rules. *)
Lemma evaluate_cases (self : RiskRatingEvaluator) (raw : str) :
  (evaluate self raw).2 = Ok (degenerate_result no_information_provided)
  ∨ (evaluate self raw).2 = Ok (degenerate_result n_a)
  ∨ (evaluate self raw).2 = evaluate_rules (evaluate self raw).1.
Proof.
  unfold evaluate; cbn [fst snd notes].
  case_bool_decide; [by left|]. destruct (_ || _); [right; by left | right; by right].
Qed.

Lemma determine_from_Ok self context status incidents overview plan order rating details :
  determine_from self context status incidents overview plan order
    = Ok (rating, details) →
  (rating = very_unfavorable
   ∧ details = fallback_details fallback_reason (_missing_required_controls status))
  ∨ (∃ t requirements,
       t ∈ order
       ∧ rating = tier t
       ∧ details = _build_rating_details t requirements status incidents overview
       ∧ _meets_rating t requirements context status incidents overview plan = true).
Proof.
  induction order as [|t order IH]; cbn [determine_from]; intros H.
  - injection H as <- <-. by left.
  - apply bind_Ok in H as (rts & _ & H). apply bind_Ok in H as (reqs & _ & H).
    destruct (_meets_rating _ _ _ _ _ _ _) eqn:Hmeets.
    + injection H as <- <-. right. exists t, reqs. split_and!; [by left|done..].
    + destruct (IH H) as [?|(t' & reqs' & ? & ?)]; [by left|].
      right. exists t', reqs'. split; [by right|done].
Qed.

(** The values that [evaluate_rules] computes on the way to its result. *)
Lemma evaluate_rules_Ok (self : RiskRatingEvaluator) (r : EvaluationResult) :
  evaluate_rules self = Ok r →
  ∃ context cross status incidents overview rating details,
    _build_context self = Ok context
    ∧ _apply_cross_satisfaction self = Ok cross
    ∧ _evaluate_controls self context cross = Ok status
    ∧ _collect_incident_response_elements self = Ok incidents
    ∧ _evaluate_info_tech_overview self = Ok overview
    ∧ _determine_rating self context status incidents overview
        (_evaluate_business_continuity status) = Ok (rating, details)
    ∧ r = {| res_rating := rating;
             res_details := details;
             res_context :=
               {| res_handles_pii := handles_pii context;
                  res_remote_work_allowed := remote_work_allowed context;
                  res_software_provider := software_provider context;
                  res_incident_elements := Some (Py.sorted (elements incidents)) |} |}.
Proof.
  unfold evaluate_rules. intros H.
  apply bind_Ok in H as (context & Hctx & H).
  apply bind_Ok in H as (cross & Hcross & H).
  apply bind_Ok in H as (status & Hstatus & H).
  apply bind_Ok in H as (incidents & Hinc & H).
  apply bind_Ok in H as (overview & Hov & H).
  apply bind_Ok in H as ([rating details] & Hrating & [= <-]).
  exists context, cross, status, incidents, overview, rating, details.
  split_and!; done.
Qed.

Lemma control_map_of_rules (self : RiskRatingEvaluator) (raw : str) context cross :
  _build_context (evaluate self raw).1 = Ok context →
  _apply_cross_satisfaction (evaluate self raw).1 = Ok cross →
  control_map self raw = _evaluate_controls (evaluate self raw).1 context cross.
Proof. unfold control_map. cbn zeta. by intros -> ->. Qed.

Lemma control_map_keyed (self : RiskRatingEvaluator) (raw : str) status :
  control_map self raw = Ok status → keyed status.
Proof.
  unfold control_map. cbn zeta. intros H.
  apply bind_Ok in H as (context & _ & H). apply bind_Ok in H as (cross & _ & H).
  intros k ctrl. by eapply evaluate_controls_key.
Qed.

(** C6.  When the evaluation falls through to [very_unfavorable], the list
    of missing controls holds, each once, exactly the identifiers whose
    status in the control map of this evaluation is required and not
    satisfied. *)
Theorem fallback_missing_controls (self : RiskRatingEvaluator) (raw : str)
    (r : EvaluationResult) :
  (evaluate self raw).2 = Ok r →
  res_rating r = very_unfavorable →
  ∃ status missing,
    control_map self raw = Ok status
    ∧ res_details r = fallback_details fallback_reason missing
    ∧ NoDup missing
    ∧ ∀ cid, cid ∈ missing ↔
             ∃ ctrl, status !! cid = Some ctrl
                     ∧ required ctrl = true ∧ satisfied ctrl = false.
Proof.
  intros Hr Hrating.
  destruct (evaluate_cases self raw) as [H|[H|H]]; rewrite H in Hr.
  - injection Hr as <-. discriminate Hrating.
  - injection Hr as <-. discriminate Hrating.
  - apply evaluate_rules_Ok in Hr
      as (context & cross & status & incidents & overview & rating & details
          & Hctx & Hcross & Hstatus & _ & _ & Hdet & ->).
    cbn in Hrating. subst rating.
    apply determine_from_Ok in Hdet as [[_ ->]|(t & ? & _ & [=] & _)].
    assert (control_map self raw = Ok status) as Hmap
      by by rewrite (control_map_of_rules _ _ context cross).
    pose proof (control_map_keyed _ _ _ Hmap) as Hkey.
    exists status, (_missing_required_controls status). split_and!; [done..| |].
    + apply NoDup_sorted. by apply NoDup_selected_ids.
    + intros cid. by apply missing_required_controls_spec.
Qed.

End details.

Section control_claims.
Context {U : Py.Unicode}.

(** C10.  When a tier is awarded, the list of satisfied controls holds, each
    once, exactly the identifiers whose status is satisfied and required; a
    control that is satisfied and not required is in neither list. *)
Theorem tier_satisfied_controls (self : RiskRatingEvaluator) (raw : str)
    (r : EvaluationResult) (t : Tier) :
  (evaluate self raw).2 = Ok r →
  res_rating r = tier t →
  ∃ status satisfied_list missing incidents overview,
    control_map self raw = Ok status
    ∧ res_details r = rating_details t satisfied_list missing incidents overview
    ∧ NoDup satisfied_list
    ∧ (∀ cid, cid ∈ satisfied_list ↔
              ∃ ctrl, status !! cid = Some ctrl
                      ∧ satisfied ctrl = true ∧ required ctrl = true)
    ∧ (∀ cid ctrl, status !! cid = Some ctrl →
                   satisfied ctrl = true → required ctrl = false →
                   (cid ∉ satisfied_list) ∧ (cid ∉ missing)).
Proof.
  intros Hr Hrating.
  destruct (evaluate_cases self raw) as [H|[H|H]]; rewrite H in Hr.
  - injection Hr as <-. discriminate Hrating.
  - injection Hr as <-. discriminate Hrating.
  - apply evaluate_rules_Ok in Hr
      as (context & cross & status & incidents & overview & rating & details
          & Hctx & Hcross & Hstatus & _ & _ & Hdet & ->).
    cbn in Hrating. subst rating.
    apply determine_from_Ok in Hdet as [[[=] _]|(t' & reqs & _ & [= <-] & -> & _)].
    assert (control_map self raw = Ok status) as Hmap
      by by rewrite (control_map_of_rules _ _ context cross).
    pose proof (control_map_keyed _ _ _ Hmap) as Hkey.
    assert (∀ cid,
      cid ∈ Py.sorted (control_id <$>
               List.filter (λ ctrl, satisfied ctrl && required ctrl) (values status)) ↔
      ∃ ctrl, status !! cid = Some ctrl ∧ satisfied ctrl = true ∧ required ctrl = true)
      as Hsat.
    { intros cid. rewrite elem_of_sorted, elem_of_selected_ids by done.
      by setoid_rewrite andb_true_iff. }
    do 5 eexists. split_and!; [done|reflexivity| |done|].
    + apply NoDup_sorted. by apply NoDup_selected_ids.
    + intros cid ctrl Hcid Hs Hreq. split.
      * rewrite Hsat. intros (ctrl' & ? & _ & ?). congruence.
      * rewrite missing_required_controls_spec by done.
        intros (ctrl' & ? & ? & _). congruence.
Qed.

(** ** Cross-satisfaction *)

Lemma cross_rules_spec (self : RiskRatingEvaluator) (l : list CrossRule)
    (acc : gset str) (cid : str) :
  cid ∈ foldl (cross_rule_step self) acc l ↔
  cid ∈ acc
  ∨ ∃ rule, rule ∈ l
            ∧ existsb (λ statement, _statement_present (notes self) statement)
                (default [] (if_any_statement_present rule)) = true
            ∧ cid ∈ default [] (then_mark_controls_met rule).
Proof.
  revert acc. induction l as [|rule l IHl]; intros acc; cbn [foldl].
  - split; [by left|]. intros [?|(? & []%elem_of_nil & _)]. done.
  - rewrite IHl. unfold cross_rule_step.
    destruct (existsb _ _) eqn:Htrigger.
    + rewrite elem_of_union, elem_of_list_to_set. split.
      * intros [[?|?]|(rule' & ? & ?)]; [by left| |].
        -- right. exists rule. split_and!; [by left|done..].
        -- right. exists rule'. split; [by right|done].
      * intros [?|(rule' & [->|?]%elem_of_cons & ? & ?)].
        -- by left; left.
        -- by left; right.
        -- right. by exists rule'.
    + split.
      * intros [?|(rule' & ? & ?)]; [by left|]. right. exists rule'.
        split; [by right|done].
      * intros [?|(rule' & [->|?]%elem_of_cons & Ht & ?)]; [by left| |].
        -- rewrite Ht in Htrigger. discriminate Htrigger.
        -- right. by exists rule'.
Qed.

(** The cross-satisfied set holds the targets of the rules that have a
    trigger statement present in the notes. *)
Lemma apply_cross_satisfaction_spec (self : RiskRatingEvaluator) (cross : gset str)
    (cid : str) :
  _apply_cross_satisfaction self = Ok cross →
  cid ∈ cross ↔
  ∃ cond rule statement,
    conditions (rules self) = Some cond
    ∧ rule ∈ default [] (cross_satisfaction cond)
    ∧ statement ∈ default [] (if_any_statement_present rule)
    ∧ _statement_present (notes self) statement = true
    ∧ cid ∈ default [] (then_mark_controls_met rule).
Proof.
  unfold _apply_cross_satisfaction. intros H.
  apply bind_Ok in H as (cond & Hcond%getitem_Ok & [= <-]).
  rewrite cross_rules_spec. split.
  - intros [[]%not_elem_of_empty|(rule & Hrule & Htrigger & Hcid)].
    apply existsb_exists in Htrigger as (statement & Hin%list_elem_of_In & Hpresent).
    exists cond, rule, statement. done.
  - intros (cond' & rule & statement & Hcond' & Hrule & Hin & Hpresent & Hcid).
    right. assert (cond' = cond) as -> by congruence.
    exists rule. split_and!; [done| |done].
    apply existsb_exists. exists statement. by rewrite <-list_elem_of_In.
Qed.

Lemma cross_satisfaction_precedence_aux (self : RiskRatingEvaluator) (context : Context)
    (cross : gset str) (status : StatusMap) (control : Control) (cid : str) :
  _evaluate_controls self context cross = Ok status →
  control ∈ catalog_controls (default no_catalog (catalog (rules self))) →
  ctl_id control = Some cid →
  cid ∈ cross →
  ∃ ctrl, status !! cid = Some ctrl ∧ satisfied ctrl = true.
Proof.
  intros Hrun Hin Hid Hcross.
  destruct (evaluate_controls_total _ _ _ _ _ Hrun Hin) as (cid' & Hid' & [ctrl Hctrl]).
  assert (cid' = cid) as -> by congruence.
  exists ctrl. split; [done|]. by eapply evaluate_controls_cross.
Qed.

(** C7.  A control of the catalog whose identifier is in the cross-satisfied
    set is recorded satisfied.  Its check returns that status without a
    call of the text matcher, whatever the notes hold, and the control map
    the evaluator returns holds it. *)
Theorem cross_satisfaction_precedence (self : RiskRatingEvaluator) (context : Context)
    (cross : gset str) (status : StatusMap) (control : Control) (cid : str) :
  _evaluate_controls self context cross = Ok status →
  control ∈ catalog_controls (default no_catalog (catalog (rules self))) →
  ctl_id control = Some cid →
  cid ∈ cross →
  (∀ st req,
     check_control self cross st control req =
       Ok (<[cid := {| control_id := cid;
                       required := req;
                       satisfied := true;
                       text := default "" (ctl_text control);
                       tags := default [] (ctl_tags control) |}]> st))
  ∧ ∃ ctrl, status !! cid = Some ctrl ∧ satisfied ctrl = true.
Proof.
  intros Hrun Hin Hid Hcross. split.
  - intros st req. unfold check_control. rewrite Hid. cbn.
    by rewrite bool_decide_eq_true_2.
  - by eapply cross_satisfaction_precedence_aux.
Qed.

(** The same through the rules: a trigger statement of a rule is in the
    notes, the rule names the control, and the control is recorded
    satisfied in the control map of the evaluation. *)
Corollary cross_satisfaction_trigger (self : RiskRatingEvaluator) (raw : str)
    (status : StatusMap) (cond : Conditions) (rule : CrossRule)
    (statement : str) (control : Control) (cid : str) :
  control_map self raw = Ok status →
  conditions (rules self) = Some cond →
  rule ∈ default [] (cross_satisfaction cond) →
  statement ∈ default [] (if_any_statement_present rule) →
  _statement_present (_normalize raw) statement = true →
  cid ∈ default [] (then_mark_controls_met rule) →
  control ∈ catalog_controls (default no_catalog (catalog (rules self))) →
  ctl_id control = Some cid →
  ∃ ctrl, status !! cid = Some ctrl ∧ satisfied ctrl = true.
Proof.
  unfold control_map. cbn zeta. intros Hmap Hcond Hrule Hstatement Hpresent Hcid Hin Hid.
  apply bind_Ok in Hmap as (context & _ & Hmap).
  apply bind_Ok in Hmap as (cross & Hcross & Hmap).
  eapply (cross_satisfaction_precedence_aux _ _ _ _ _ _ Hmap Hin Hid).
  apply (apply_cross_satisfaction_spec _ _ _ Hcross).
  exists cond, rule, statement. done.
Qed.

(** ** The need-to-know override *)

Lemma registering_step_other (cross : gset str)
    (step : StatusMap → Control → result StatusMap) status control status' k :
  registers cross step →
  step status control = Ok status' →
  ctl_id control ≠ Some k → status' !! k = status !! k.
Proof.
  intros Hstep (cid & req & sat & Hid & -> & _)%Hstep Hne.
  unfold register_control. apply lookup_insert_ne. congruence.
Qed.

(** C8.  The override flag is set, the identifiers of the catalog are
    unique, [lac_least_privilege] is a logical-access control and ends
    satisfied: then the status of the need-to-know control of the PII group
    is [required = false], [satisfied = true], whatever the notes say about
    its own text. *)
Theorem need_to_know_override (self : RiskRatingEvaluator) (context : Context)
    (cross : gset str) (status : StatusMap) (lac_control ntk_control : Control) :
  let cond := default no_conditions (conditions (rules self)) in
  let cat := default no_catalog (catalog (rules self)) in
  truthy (do_not_enforce_need_to_know_if_least_privilege_statement_present
            (default no_network_conditions (cond_network_information_security cond)))
    = true →
  NoDup (ctl_id <$> catalog_controls cat) →
  lac_control ∈ default [] (cat_logical_access_controls cat) →
  ctl_id lac_control = Some "lac_least_privilege" →
  ntk_control ∈ default [] (pii_controls
                              (default no_network_catalog
                                 (cat_network_information_security cat))) →
  ctl_id ntk_control = Some "net_pii_need_to_know" →
  _evaluate_controls self context cross = Ok status →
  status_satisfied status "lac_least_privilege" = true →
  status !! "net_pii_need_to_know" =
    Some {| control_id := "net_pii_need_to_know";
            required := false;
            satisfied := true;
            text := default "" (ctl_text ntk_control);
            tags := default [] (ctl_tags ntk_control) |}.
Proof.
  intros cond cat Hflag Hnodup Hlac Hlacid Hntk Hntkid Hrun Hsat.
  apply evaluate_controls_loops in Hrun
    as (st1 & st2 & st3 & st4 & st5 & H1 & H2 & H3 & H4 & H5 & H6).
  cbn zeta in H1, H2, H3, H4, H5, H6. fold cond in H1, H2. fold cat in H1, H2, H3, H4, H5, H6.
  unfold catalog_controls in Hnodup. cbn zeta in Hnodup.
  apply list_elem_of_split in Hntk as (l1 & l2 & Hpii).
  rewrite Hpii in H2, Hnodup.
  rewrite for_each_app in H2. apply bind_Ok in H2 as (sta & Ha & H2).
  cbn [for_each] in H2. apply bind_Ok in H2 as (stb & Hb & H2).
  rewrite !fmap_app, fmap_cons in Hnodup.
  apply NoDup_app in Hnodup as (_ & Hlac_rest & Hnodup).
  specialize (Hlac_rest (Some "lac_least_privilege")).
  rewrite <-Hlacid in Hlac_rest at 1.
  specialize (Hlac_rest (list_elem_of_fmap_2 _ _ _ Hlac)).
  rewrite !not_elem_of_app, not_elem_of_cons in Hlac_rest.
  destruct Hlac_rest as ((Hlp1 & Hlpntk & Hlp2) & Hlp3 & Hlp4 & Hlp5 & Hlp6).
  apply NoDup_app in Hnodup as (Hpii_nodup & Hpii_rest & _).
  specialize (Hpii_rest (ctl_id ntk_control)).
  rewrite elem_of_app, elem_of_cons in Hpii_rest.
  specialize (Hpii_rest (or_intror (or_introl eq_refl))).
  rewrite Hntkid, !not_elem_of_app in Hpii_rest.
  destruct Hpii_rest as (Hn3 & Hn4 & Hn5 & Hn6).
  apply NoDup_app in Hpii_nodup as (_ & Hn1 & [Hn2 _]%NoDup_cons).
  rewrite Hntkid in Hn1, Hn2.
  assert (Some "net_pii_need_to_know" ∉ ctl_id <$> l1) as Hn1'.
  { intros Hin. apply (Hn1 _ Hin). by left. }
  (* the status of [lac_least_privilege] is settled by the first loop *)
  unfold status_satisfied in Hsat.
  destruct (status !! "lac_least_privilege") as [lp|] eqn:Hlp; [|discriminate Hsat].
  assert (sta !! "lac_least_privilege" = Some lp) as Hlpa.
  { rewrite <-Hlp.
    rewrite (registering_loop_other _ _ (always_required_step_registers _ _) _ _ _ _ H6 Hlp6).
    rewrite (registering_loop_other _ _ (remote_workforce_step_registers _ _ _) _ _ _ _ H5 Hlp5).
    rewrite (registering_loop_other _ _ (change_mgmt_step_registers _ _ _) _ _ _ _ H4 Hlp4).
    rewrite (registering_loop_other _ _ (always_required_step_registers _ _) _ _ _ _ H3 Hlp3).
    rewrite (registering_loop_other _ _ (pii_step_registers _ _ _ _) _ _ _ _ H2 Hlp2).
    symmetry. apply (registering_step_other _ _ _ _ _ _ (pii_step_registers _ _ _ _) Hb).
    congruence. }
  (* so the override fires when the need-to-know control is visited *)
  assert (stb !! "net_pii_need_to_know" =
            Some {| control_id := "net_pii_need_to_know";
                    required := false;
                    satisfied := true;
                    text := default "" (ctl_text ntk_control);
                    tags := default [] (ctl_tags ntk_control) |}) as Hntkb.
  { unfold pii_step in Hb. rewrite Hntkid in Hb. cbn [getitem mbind result_bind] in Hb.
    fold cond in Hflag. rewrite Hflag, Hlpa, Hsat in Hb. cbn in Hb.
    injection Hb as <-. unfold register_control. apply lookup_insert_eq. }
  (* and no later control overwrites it *)
  rewrite <-Hntkb.
  rewrite (registering_loop_other _ _ (always_required_step_registers _ _) _ _ _ _ H6 Hn6).
  rewrite (registering_loop_other _ _ (remote_workforce_step_registers _ _ _) _ _ _ _ H5 Hn5).
  rewrite (registering_loop_other _ _ (change_mgmt_step_registers _ _ _) _ _ _ _ H4 Hn4).
  rewrite (registering_loop_other _ _ (always_required_step_registers _ _) _ _ _ _ H3 Hn3).
  apply (registering_loop_other _ _ (pii_step_registers _ _ _ _) _ _ _ _ H2 Hn2).
Qed.

End control_claims.

(** ** Text evidence for a control *)

Section matcher_and_sections.
Context {U : Py.Unicode}.

(** A positive match decides: once the text, the identifier or the tail
    token is found, [_statement_satisfies_control] has returned and the
    negative statements are never read. *)
Lemma positive_match_returns (self : RiskRatingEvaluator) (cid ctext : str) :
  _statement_present (notes self) ctext = true
  ∨ (cid ≠ "" ∧ Py.str_in cid (notes self) = true) →
  _statement_satisfies_control self cid ctext = Ok true.
Proof.
  unfold _statement_satisfies_control. intros [->|[Hne Hin]]; [done|].
  destruct (_statement_present _ _); [done|].
  by rewrite bool_decide_eq_false_2, Hin.
Qed.

(** [_statement_satisfies_control] never answers on the strength of the
    negative statements: with them or without them the answer is the same. *)
Lemma negatives_never_decide (self : RiskRatingEvaluator) (cid ctext : str) b :
  _statement_satisfies_control self cid ctext = Ok b →
  b = _statement_present (notes self) ctext
      || negb (bool_decide (cid = "")) && Py.str_in cid (notes self)
      || bool_decide (1 < length (Py.split_nonword cid))%nat
         && (negb (bool_decide (Py.join " " (tail (Py.split_nonword cid)) = ""))
             && Py.str_in (Py.join " " (tail (Py.split_nonword cid))) (notes self)).
Proof.
  unfold _statement_satisfies_control.
  destruct (_statement_present _ _); [by intros [= <-]|].
  destruct (negb _ && Py.str_in cid _); [by intros [= <-]|].
  destruct (bool_decide (1 < _)%nat && _); [by intros [= <-]|].
  case_bool_decide as Hid; [|by intros [= <-]].
  intros H. apply bind_Ok in H as (cond & _ & H). apply bind_Ok in H as (lac & _ & H).
  destruct (existsb _ _); by injection H as <-.
Qed.

(** C1, on the code.  The notes hold the text of the control
    [lac_passwords_encrypted_in_transit] and a configured negative statement:
    the control is reported satisfied, in the matcher and in the result of
    [evaluate]. *)
Theorem passwords_negative_ignored :
  existsb (λ neg, _statement_present (notes (DemoRuns.run DemoRuns.password_notes)) neg)
    ["passwords are sent in clear text"] = true
  ∧ _statement_satisfies_control (DemoRuns.run DemoRuns.password_notes)
      "lac_passwords_encrypted_in_transit" "Passwords are encrypted in transit"
    = Ok true
  ∧ status_satisfied (DemoRuns.status_of DemoRuns.password_notes)
      "lac_passwords_encrypted_in_transit" = true.
Proof. vm_compute. done. Qed.

(** ** Missing sections of the rule document *)

Lemma evaluate_not_degenerate (self : RiskRatingEvaluator) (raw : str) :
  _normalize raw ≠ "" →
  ¬ occurs_in "not applicable" (_normalize raw) →
  ¬ standalone_na (_normalize raw) →
  (evaluate self raw).2 = evaluate_rules (evaluate self raw).1.
Proof.
  intros Hne Hna1 Hna2. unfold evaluate; cbn [fst snd notes].
  rewrite bool_decide_eq_false_2 by done.
  rewrite <-str_in_spec in Hna1. rewrite <-search_na_spec in Hna2.
  apply not_true_is_false in Hna1, Hna2. by rewrite Hna1, Hna2.
Qed.

Lemma bind_Ok_l {A B : Type} (a : A) (f : A → result B) : Ok a ≫= f = f a.
Proof. reflexivity. Qed.

Lemma bind_Raise_l {A B : Type} (e : PyError) (f : A → result B) :
  Raise e ≫= f = Raise e.
Proof. reflexivity. Qed.

Section sections_of_the_rules.
Context (self : RiskRatingEvaluator).

Lemma build_context_conditions :
  match conditions (rules self) with
  | None => _build_context self = Raise (KeyError "conditions")
  | Some _ => ∃ context, _build_context self = Ok context
  end.
Proof. unfold _build_context. destruct (conditions _); cbn; eauto. Qed.

Lemma apply_cross_satisfaction_conditions :
  match conditions (rules self) with
  | None => _apply_cross_satisfaction self = Raise (KeyError "conditions")
  | Some _ => ∃ cross, _apply_cross_satisfaction self = Ok cross
  end.
Proof. unfold _apply_cross_satisfaction. destruct (conditions _); cbn; eauto. Qed.

Lemma evaluate_controls_no_catalog context cross :
  catalog (rules self) = None → _evaluate_controls self context cross = Ok ∅.
Proof. unfold _evaluate_controls. by intros ->. Qed.

Lemma collect_incident_response_elements_catalog :
  match catalog (rules self) with
  | None => _collect_incident_response_elements self = Raise (KeyError "catalog")
  | Some _ => ∃ incidents, _collect_incident_response_elements self = Ok incidents
  end.
Proof.
  unfold _collect_incident_response_elements. destruct (catalog _); cbn; eauto.
Qed.

Lemma evaluate_info_tech_overview_no_ratings :
  ratings (rules self) = None →
  _evaluate_info_tech_overview self = Raise (KeyError "ratings").
Proof. unfold _evaluate_info_tech_overview. by intros ->. Qed.

End sections_of_the_rules.

(** C3.  The notes are not degenerate and the rule document lacks the
    conditions, the catalog or the ratings: [evaluate] raises a [KeyError].
    It names ["conditions"] when the conditions are missing, ["catalog"]
    when the catalog is and the conditions are not, and otherwise
    ["ratings"] unless the control evaluator itself has raised before. *)
Theorem missing_section_raises (self : RiskRatingEvaluator) (raw : str) :
  _normalize raw ≠ "" →
  ¬ occurs_in "not applicable" (_normalize raw) →
  ¬ standalone_na (_normalize raw) →
  conditions (rules self) = None
  ∨ catalog (rules self) = None
  ∨ ratings (rules self) = None →
  ∃ key,
    (evaluate self raw).2 = Raise (KeyError key)
    ∧ (conditions (rules self) = None → key = "conditions")
    ∧ (conditions (rules self) ≠ None → catalog (rules self) = None → key = "catalog")
    ∧ (conditions (rules self) ≠ None → catalog (rules self) ≠ None →
       key = "ratings"
       ∨ ∃ context cross,
           _evaluate_controls (evaluate self raw).1 context cross = Raise (KeyError key)).
Proof.
  intros Hne Hna1 Hna2 Hmissing.
  rewrite evaluate_not_degenerate by done.
  set (self' := (evaluate self raw).1).
  change (rules self) with (rules self') in *.
  unfold evaluate_rules.
  pose proof (build_context_conditions self') as Hctx.
  pose proof (apply_cross_satisfaction_conditions self') as Hcross.
  pose proof (collect_incident_response_elements_catalog self') as Hinc.
  destruct (conditions (rules self')) as [cond|] eqn:Hcond.
  2:{ rewrite Hctx, bind_Raise_l. exists "conditions". split_and!; done. }
  destruct Hctx as [context ->]. destruct Hcross as [cross ->]. rewrite !bind_Ok_l.
  destruct (catalog (rules self')) as [cat|] eqn:Hcat.
  2:{ rewrite evaluate_controls_no_catalog by done. rewrite bind_Ok_l, Hinc, bind_Raise_l.
      exists "catalog". split_and!; done. }
  destruct Hmissing as [?|[?|Hratings]]; [done..|].
  destruct (_evaluate_controls self' context cross) as [status|[key]] eqn:Hcontrols.
  - destruct Hinc as [incidents ->].
    rewrite !bind_Ok_l, evaluate_info_tech_overview_no_ratings, bind_Raise_l by done.
    exists "ratings". split_and!; [done..|]. by left.
  - rewrite bind_Raise_l. exists key. split_and!; [done..|]. intros _ _. right. eauto.
Qed.

End matcher_and_sections.

(** ** Selections of a control map *)

Section monotonicity.
Context {U : Py.Unicode}.

Section selections.
Implicit Types (q : str * ControlStatus → bool) (p : ControlStatus → bool).
Implicit Types (status : StatusMap).

Lemma filter_snd_filter q p (l : list (str * ControlStatus)) :
  List.filter p ((List.filter q l).*2) = (List.filter (λ kv, q kv && p kv.2) l).*2.
Proof.
  induction l as [|kv l IHl]; [done|]. cbn [List.filter].
  destruct (q kv) eqn:Hq; cbn; [|done].
  destruct (p kv.2); cbn; by rewrite IHl.
Qed.

Lemma values_filter p status :
  List.filter p (values status) = (List.filter (λ kv, p kv.2) (items status)).*2.
Proof.
  unfold values. induction (items status) as [|kv l IHl]; [done|]. cbn.
  destruct (p kv.2); cbn; by rewrite IHl.
Qed.

Lemma elem_of_selection q status ctrl :
  ctrl ∈ (List.filter q (items status)).*2 ↔
  ∃ k, status !! k = Some ctrl ∧ q (k, ctrl) = true.
Proof.
  rewrite list_elem_of_fmap. unfold items. split.
  - intros ([k c] & -> & [Hq Hin%elem_of_map_to_list]%elem_of_List_filter). eauto.
  - intros (k & Hk & Hq). exists (k, ctrl). split; [done|].
    apply elem_of_List_filter. by rewrite elem_of_map_to_list.
Qed.

Lemma forallb_selection q p status :
  forallb p (List.filter q (items status)).*2 = true ↔
  ∀ k ctrl, status !! k = Some ctrl → q (k, ctrl) = true → p ctrl = true.
Proof.
  rewrite forallb_forall. split.
  - intros Hall k ctrl Hk Hq. apply Hall, list_elem_of_In, elem_of_selection. eauto.
  - intros Hall ctrl (k & Hk & Hq)%list_elem_of_In%elem_of_selection. eauto.
Qed.

Lemma existsb_selection q p status :
  existsb p (List.filter q (items status)).*2 = true ↔
  ∃ k ctrl, status !! k = Some ctrl ∧ q (k, ctrl) = true ∧ p ctrl = true.
Proof.
  rewrite existsb_exists. split.
  - intros (ctrl & (k & Hk & Hq)%list_elem_of_In%elem_of_selection & Hp). eauto.
  - intros (k & ctrl & Hk & Hq & Hp). exists ctrl. split; [|done].
    apply list_elem_of_In, elem_of_selection. eauto.
Qed.

Lemma nonempty_selection q status :
  nonempty (List.filter q (items status)).*2 = true ↔
  ∃ k ctrl, status !! k = Some ctrl ∧ q (k, ctrl) = true.
Proof.
  split.
  - destruct (_.*2) as [|ctrl l] eqn:Hl; [done|]. intros _.
    assert (ctrl ∈ (List.filter q (items status)).*2) as Hin by (rewrite Hl; by left).
    apply elem_of_selection in Hin as (k & ? & ?). eauto.
  - intros (k & ctrl & Hk & Hq).
    assert (ctrl ∈ (List.filter q (items status)).*2) as Hin
      by (apply elem_of_selection; eauto).
    by destruct (_.*2); [apply elem_of_nil in Hin|].
Qed.

(** A selection is no longer than another one that holds a status for each
    of its keys. *)
Lemma selection_length_mono q q' status status' :
  (∀ k ctrl, status !! k = Some ctrl → q (k, ctrl) = true →
             ∃ ctrl', status' !! k = Some ctrl' ∧ q' (k, ctrl') = true) →
  (length (List.filter q (items status)).*2
   ≤ length (List.filter q' (items status')).*2)%nat.
Proof.
  intros Hincl. unfold items. rewrite !length_fmap.
  rewrite <-(length_fmap fst (List.filter q _)), <-(length_fmap fst (List.filter q' _)).
  apply submseteq_length, NoDup_submseteq.
  - rewrite List_filter_filter.
    apply (sublist_NoDup _ ((map_to_list status).*1)); [apply NoDup_fst_map_to_list|].
    apply fmap_sublist. apply sublist_filter.
  - intros k ([k' c] & -> & [Hq Hin%elem_of_map_to_list]%elem_of_List_filter)%list_elem_of_fmap.
    destruct (Hincl _ _ Hin Hq) as (c' & Hc' & Hq').
    apply list_elem_of_fmap. exists (k', c'). split; [done|].
    apply elem_of_List_filter. by rewrite elem_of_map_to_list.
Qed.

Lemma count_selection_mono q q' p p' status status' :
  (∀ k ctrl, status !! k = Some ctrl → q (k, ctrl) = true → p ctrl = true →
             ∃ ctrl', status' !! k = Some ctrl'
                      ∧ q' (k, ctrl') = true ∧ p' ctrl' = true) →
  count p (List.filter q (items status)).*2
  ≤ count p' (List.filter q' (items status')).*2.
Proof.
  intros Hincl. unfold count. rewrite !filter_snd_filter.
  apply Nat2Z.inj_le, selection_length_mono.
  intros k ctrl Hk [Hq Hp]%andb_true_iff.
  destruct (Hincl _ _ Hk Hq Hp) as (c' & ? & ? & ?). exists c'.
  split; [done|]. by apply andb_true_iff.
Qed.

Lemma count_pointwise_mono {A : Type} (f g : A → bool) (l : list A) :
  (∀ x, f x = true → g x = true) → count f l ≤ count g l.
Proof.
  intros Hfg. unfold count. apply Nat2Z.inj_le.
  induction l as [|x l IHl]; [done|]. cbn.
  destruct (f x) eqn:Hf.
  - rewrite (Hfg _ Hf). cbn. lia.
  - destruct (g x); cbn; lia.
Qed.

End selections.

(** ** The tier checks grow with the evidence *)

#[local] Arguments Py.startswith : simpl never.

Section checks_grow.
Context (context : Context) (status status' : StatusMap).
Context (Hgrows : status_grows status status').
Context (Hpii : handles_pii context = true → pii_required status → pii_required status').

Lemma grows_lookup k ctrl :
  status !! k = Some ctrl →
  ∃ ctrl', status' !! k = Some ctrl' ∧ grows k ctrl ctrl'.
Proof.
  intros Hk. pose proof (Hgrows k) as Hrel. rewrite Hk in Hrel.
  destruct (status' !! k) as [ctrl'|] eqn:Hk'; inversion Hrel; subst. eauto.
Qed.

Lemma grows_lookup_inv k ctrl' :
  status' !! k = Some ctrl' →
  ∃ ctrl, status !! k = Some ctrl ∧ grows k ctrl ctrl'.
Proof.
  intros Hk'. pose proof (Hgrows k) as Hrel. rewrite Hk' in Hrel.
  destruct (status !! k) as [ctrl|] eqn:Hk; inversion Hrel; subst. eauto.
Qed.

Lemma status_satisfied_grows k :
  status_satisfied status k = true → status_satisfied status' k = true.
Proof.
  unfold status_satisfied. destruct (status !! k) as [ctrl|] eqn:Hk; [|done].
  destruct (grows_lookup _ _ Hk) as (ctrl' & -> & (_ & _ & _ & Hsat & _)). apply Hsat.
Qed.

Lemma forallb_satisfied_grows q :
  stable q →
  forallb satisfied (List.filter q (items status)).*2 = true →
  forallb satisfied (List.filter q (items status')).*2 = true.
Proof.
  rewrite !forallb_selection. intros Hq Hall k ctrl' Hk' Hsel.
  destruct (grows_lookup_inv _ _ Hk') as (ctrl & Hk & Hg).
  rewrite <-(Hq k ctrl ctrl' Hg) in Hsel.
  destruct Hg as (_ & _ & _ & Hsat & _). eauto.
Qed.

Lemma count_satisfied_grows q :
  stable q →
  count satisfied (List.filter q (items status)).*2
  ≤ count satisfied (List.filter q (items status')).*2.
Proof.
  intros Hq. apply count_selection_mono. intros k ctrl Hk Hsel Hsat.
  destruct (grows_lookup _ _ Hk) as (ctrl' & Hk' & Hg).
  exists ctrl'. rewrite <-(Hq k ctrl ctrl' Hg).
  destruct Hg as (_ & _ & _ & Hs & _). eauto.
Qed.

Lemma any_satisfied_with_tag_grows q tag :
  stable q →
  any_satisfied_with_tag tag (List.filter q (items status)).*2 = true →
  any_satisfied_with_tag tag (List.filter q (items status')).*2 = true.
Proof.
  unfold any_satisfied_with_tag. rewrite !existsb_selection.
  intros Hq (k & ctrl & Hk & Hsel & [Hsat Htag]%andb_true_iff).
  destruct (grows_lookup _ _ Hk) as (ctrl' & Hk' & Hg).
  exists k, ctrl'. rewrite <-(Hq k ctrl ctrl' Hg).
  destruct Hg as (_ & _ & Htags & Hs & _). rewrite <-Htags.
  split_and!; [done..|]. apply andb_true_iff. eauto.
Qed.

(** The shared block: a minimum count, then a tag some satisfied control
    must carry. *)
Lemma min_count_and_tag_grows q (min_count : Z) (tag : option str) :
  stable q →
  (if count satisfied (List.filter q (items status)).*2 <? min_count then false
   else match tag with
        | Some tag =>
            if negb (bool_decide (tag = ""))
               && negb (any_satisfied_with_tag tag (List.filter q (items status)).*2)
            then false else true
        | None => true
        end) = true →
  (if count satisfied (List.filter q (items status')).*2 <? min_count then false
   else match tag with
        | Some tag =>
            if negb (bool_decide (tag = ""))
               && negb (any_satisfied_with_tag tag (List.filter q (items status')).*2)
            then false else true
        | None => true
        end) = true.
Proof.
  intros Hq. pose proof (count_satisfied_grows q Hq) as Hcount.
  destruct (_ <? _) eqn:Hlt; [done|]. apply Z.ltb_ge in Hlt.
  rewrite (proj2 (Z.ltb_ge _ _)) by lia.
  destruct tag as [tag|]; [|done].
  destruct (bool_decide (tag = "")); [done|]. cbn.
  destruct (any_satisfied_with_tag tag (List.filter q (items status)).*2) eqn:Hany;
    [|done].
  by rewrite (any_satisfied_with_tag_grows q tag Hq Hany).
Qed.

(** The groups that the need-to-know control is not in select the same
    controls from both maps. *)
Lemma stable_prefix prefix :
  Py.startswith "net_pii_need_to_know" prefix = false →
  stable (λ kv, Py.startswith kv.1 prefix && required kv.2).
Proof.
  intros Hprefix k ctrl ctrl' (_ & _ & _ & _ & [Hr|(-> & _ & _)]); cbn.
  - by rewrite Hr.
  - by rewrite Hprefix.
Qed.

Lemma stable_network :
  stable (λ kv, Py.startswith (control_id kv.2) "net_"
                && negb (Py.startswith (control_id kv.2) "net_pii_")
                && required kv.2).
Proof.
  intros k ctrl ctrl' (Hid & Hid' & _ & _ & [Hr|(Hk & _ & _)]); cbn;
    rewrite Hid, Hid'.
  - by rewrite Hr.
  - by rewrite Hk.
Qed.

Lemma required_category prefix st :
  List.filter required (_category_controls prefix st)
  = (List.filter (λ kv, Py.startswith kv.1 prefix && required kv.2) (items st)).*2.
Proof. unfold _category_controls. apply filter_snd_filter. Qed.

Lemma required_network st :
  List.filter required
    (List.filter (λ ctrl, Py.startswith (control_id ctrl) "net_"
                          && negb (Py.startswith (control_id ctrl) "net_pii_"))
       (values st))
  = (List.filter (λ kv, Py.startswith (control_id kv.2) "net_"
                        && negb (Py.startswith (control_id kv.2) "net_pii_")
                        && required kv.2) (items st)).*2.
Proof. rewrite values_filter. apply filter_snd_filter. Qed.

Lemma meets_logical_access_controls_grows requirement :
  _meets_logical_access_controls requirement status = true →
  _meets_logical_access_controls requirement status' = true.
Proof.
  unfold _meets_logical_access_controls. cbn zeta. rewrite !required_category.
  destruct (truthy _).
  - by apply forallb_satisfied_grows, stable_prefix.
  - by apply min_count_and_tag_grows, stable_prefix.
Qed.

Lemma pii_required_selection st :
  nonempty (List.filter (λ kv, Py.startswith kv.1 "net_pii_" && required kv.2)
              (items st)).*2 = true ↔ pii_required st.
Proof.
  rewrite nonempty_selection. unfold pii_required.
  by setoid_rewrite andb_true_iff.
Qed.

(** The required PII controls of the second map were required in the first:
    if those were all satisfied, these are. *)
Lemma pii_controls_satisfied_grows :
  forallb satisfied
    (List.filter (λ kv, Py.startswith kv.1 "net_pii_" && required kv.2)
       (items status)).*2 = true →
  forallb satisfied
    (List.filter (λ kv, Py.startswith kv.1 "net_pii_" && required kv.2)
       (items status')).*2 = true.
Proof.
  rewrite !forallb_selection. intros Hall k ctrl' Hk' [Hprefix Hreq']%andb_true_iff.
  destruct (grows_lookup_inv _ _ Hk') as (ctrl & Hk & (_ & _ & _ & Hsat & Hreq)).
  apply Hsat, (Hall k ctrl Hk). cbn in *. rewrite Hprefix. cbn.
  destruct Hreq as [<-|(_ & _ & Hfalse)]; [done|congruence].
Qed.

Lemma meets_network_controls_grows requirement :
  _meets_network_controls requirement context status = true →
  _meets_network_controls requirement context status' = true.
Proof.
  unfold _meets_network_controls. cbn zeta.
  rewrite !required_category, !required_network.
  destruct (truthy (pii_controls_required_if_company_handles_pii _)); cbn [andb].
  - destruct (handles_pii context) eqn:Hhandles; cbn [andb].
    + destruct (nonempty (List.filter _ (items status)).*2) eqn:Hne; [|done]. cbn.
      destruct (forallb satisfied (List.filter _ (items status)).*2) eqn:Hall; [|done].
      cbn. apply pii_required_selection, (Hpii eq_refl), pii_required_selection in Hne.
      rewrite Hne, (pii_controls_satisfied_grows Hall). cbn.
      destruct (truthy _).
      * apply forallb_satisfied_grows, stable_network.
      * apply min_count_and_tag_grows, stable_network.
    + destruct (truthy _).
      * apply forallb_satisfied_grows, stable_network.
      * apply min_count_and_tag_grows, stable_network.
  - destruct (truthy _).
    + apply forallb_satisfied_grows, stable_network.
    + apply min_count_and_tag_grows, stable_network.
Qed.

Lemma min_count_grows (n n' m : Z) :
  n ≤ n' → (if n <? m then false else true) = true →
  (if n' <? m then false else true) = true.
Proof.
  intros Hle. destruct (n <? m) eqn:Hlt; [done|]. apply Z.ltb_ge in Hlt.
  by rewrite (proj2 (Z.ltb_ge _ _)) by lia.
Qed.

Lemma meets_change_mgmt_grows requirement :
  _meets_change_mgmt requirement context status = true →
  _meets_change_mgmt requirement context status' = true.
Proof.
  unfold _meets_change_mgmt. cbn zeta. rewrite !required_category.
  destruct (negb (software_provider context)); [done|].
  destruct (truthy (chg_required_all _)).
  { by apply forallb_satisfied_grows, stable_prefix. }
  destruct (truthy (require_change_mgmt_process _)); cbn.
  - destruct (status_satisfied status _) eqn:Hproc; [|done].
    rewrite (status_satisfied_grows _ Hproc). cbn.
    destruct (nonempty _).
    + apply min_count_grows, count_pointwise_mono, status_satisfied_grows.
    + by apply min_count_grows, count_satisfied_grows, stable_prefix.
  - destruct (nonempty _).
    + apply min_count_grows, count_pointwise_mono, status_satisfied_grows.
    + by apply min_count_grows, count_satisfied_grows, stable_prefix.
Qed.

Lemma meets_remote_workforce_grows requirement :
  _meets_remote_workforce requirement context status = true →
  _meets_remote_workforce requirement context status' = true.
Proof.
  unfold _meets_remote_workforce. cbn zeta. rewrite !required_category.
  destruct (negb (remote_work_allowed context)); [done|].
  destruct (truthy _).
  - by apply forallb_satisfied_grows, stable_prefix.
  - by apply min_count_grows, count_satisfied_grows, stable_prefix.
Qed.

End checks_grow.

Lemma meets_info_tech_overview_grows requirement (present present' : gset str) :
  present ⊆ present' →
  _meets_info_tech_overview requirement present = true →
  _meets_info_tech_overview requirement present' = true.
Proof.
  unfold _meets_info_tech_overview. rewrite !forallb_forall.
  intros Hsub Hall statement Hin. specialize (Hall _ Hin).
  apply bool_decide_eq_true in Hall. apply bool_decide_eq_true. set_solver.
Qed.

Lemma meets_incident_response_grows requirement (elements elements' : gset str) :
  elements ⊆ elements' →
  _meets_incident_response requirement elements = true →
  _meets_incident_response requirement elements' = true.
Proof.
  unfold _meets_incident_response. intros Hsub%subseteq_size.
  destruct (min_elements requirement) as [m|]; [|done].
  rewrite !Z.geb_le. lia.
Qed.

Lemma meets_business_continuity_grows requirement (has_plan has_plan' : bool) :
  (has_plan = true → has_plan' = true) →
  _meets_business_continuity requirement has_plan = true →
  _meets_business_continuity requirement has_plan' = true.
Proof.
  unfold _meets_business_continuity. intros Hplan.
  destruct (bcp_required requirement) as [[]|]; [|done..].
  destruct has_plan; [|done]. by rewrite Hplan.
Qed.

(** A tier is met when its seven checks pass. *)
Lemma meets_rating_true t requirements context status incidents overview plan :
  _meets_rating t requirements context status incidents overview plan = true ↔
  _meets_info_tech_overview
    (default no_info_tech_requirement (req_info_tech_overview requirements))
    overview = true
  ∧ _meets_logical_access_controls
      (default no_logical_access_requirement (req_logical_access_controls requirements))
      status = true
  ∧ _meets_network_controls
      (default no_network_requirement (req_network_information_security requirements))
      context status = true
  ∧ _meets_change_mgmt
      (default no_change_mgmt_requirement (req_change_mgmt_sdlc requirements))
      context status = true
  ∧ _meets_remote_workforce
      (default no_remote_workforce_requirement (req_remote_workforce requirements))
      context status = true
  ∧ _meets_incident_response
      (default no_incident_response_requirement (req_incident_response requirements))
      incidents = true
  ∧ _meets_business_continuity
      (default no_business_continuity_requirement (req_business_continuity requirements))
      plan = true.
Proof.
  unfold _meets_rating.
  repeat match goal with
         | |- context [negb ?b] => destruct b; cbn [negb]
         end;
    (split; [intros ?; by split_and! | by intros (? & ? & ? & ? & ? & ? & ?)]).
Qed.

Section rating_grows.
Context (context : Context) (status status' : StatusMap).
Context (incidents incidents' overview overview' : gset str).
Context (Hgrows : status_grows status status').
Context (Hpii : handles_pii context = true → pii_required status → pii_required status').
Context (Hincidents : incidents ⊆ incidents') (Hoverview : overview ⊆ overview').

Lemma evaluate_business_continuity_grows :
  _evaluate_business_continuity status = true →
  _evaluate_business_continuity status' = true.
Proof. by apply status_satisfied_grows. Qed.

Lemma meets_rating_grows t requirements :
  _meets_rating t requirements context status incidents overview
    (_evaluate_business_continuity status) = true →
  _meets_rating t requirements context status' incidents' overview'
    (_evaluate_business_continuity status') = true.
Proof.
  rewrite !meets_rating_true. intros (H1 & H2 & H3 & H4 & H5 & H6 & H7).
  split_and!.
  - by eapply meets_info_tech_overview_grows.
  - by eapply meets_logical_access_controls_grows.
  - by eapply meets_network_controls_grows.
  - by eapply meets_change_mgmt_grows.
  - by eapply meets_remote_workforce_grows.
  - by eapply meets_incident_response_grows.
  - eapply meets_business_continuity_grows; [|done].
    apply evaluate_business_continuity_grows.
Qed.

(** What the tier loop returns is never above the tiers it is given. *)
Lemma determine_from_bound self order rating details (bound : nat) :
  Forall (λ t, tier_rank t ≤ bound)%nat order →
  determine_from self context status incidents overview
    (_evaluate_business_continuity status) order = Ok (rating, details) →
  ∃ a, favorability rating = Some a ∧ (a ≤ bound)%nat.
Proof.
  intros Hbound [[-> _]|(t & ? & Hin & -> & _)]%determine_from_Ok.
  - exists 0%nat. split; [done|lia].
  - exists (tier_rank t). split; [done|]. by eapply Forall_forall in Hbound.
Qed.

(** The tier loop over tiers in descending order: with more evidence it
    stops no later. *)
Lemma determine_from_grows self self' order rating details :
  rules self' = rules self →
  StronglySorted (λ t1 t2, tier_rank t2 < tier_rank t1)%nat order →
  determine_from self context status incidents overview
    (_evaluate_business_continuity status) order = Ok (rating, details) →
  ∃ rating' details',
    determine_from self' context status' incidents' overview'
      (_evaluate_business_continuity status') order = Ok (rating', details')
    ∧ never_worse rating rating'.
Proof.
  intros Hrules. induction order as [|t order IH]; intros Hsorted Hrun.
  - cbn in *. injection Hrun as <- <-. do 2 eexists. split; [done|].
    exists 0%nat, 0%nat. done.
  - apply StronglySorted_inv in Hsorted as [Hsorted Hhead].
    cbn [determine_from] in *. rewrite Hrules.
    destruct (getitem "ratings" (ratings (rules self))) as [rts|] eqn:Hrts; [|done].
    rewrite bind_Ok_l in *.
    destruct (ratings_getitem rts t) as [requirements|] eqn:Hreqs; [|done].
    rewrite bind_Ok_l in *.
    destruct (_meets_rating t requirements context status _ _ _) eqn:Hmeets.
    + rewrite (meets_rating_grows _ _ Hmeets). injection Hrun as <- <-.
      do 2 eexists. split; [done|]. exists (tier_rank t), (tier_rank t). done.
    + destruct (_meets_rating t requirements context status' _ _ _) eqn:Hmeets'.
      * do 2 eexists. split; [done|].
        destruct (determine_from_bound self order rating details
                    (tier_rank t)) as (a & Ha & Hle); [|done|].
        { eapply Forall_impl; [done|]. cbn. lia. }
        exists a, (tier_rank t). done.
      * by apply IH.
Qed.

End rating_grows.

(** ** More notes, more evidence *)

Lemma elem_of_present_statements (self : RiskRatingEvaluator) (l : list str)
    (statement : str) :
  statement ∈ present_statements self l ↔
  statement ∈ l ∧ _statement_present (notes self) statement = true.
Proof.
  unfold present_statements.
  assert (∀ acc : gset str,
    statement ∈ foldl (λ acc s, if _statement_present (notes self) s
                                then acc ∪ {[s]} else acc) acc l ↔
    statement ∈ acc ∨ (statement ∈ l ∧ _statement_present (notes self) statement = true))
    as Hfold.
  { induction l as [|s l IHl]; intros acc; cbn [foldl].
    - rewrite elem_of_nil. tauto.
    - rewrite IHl, elem_of_cons.
      destruct (_statement_present (notes self) s) eqn:Hs.
      + rewrite elem_of_union, elem_of_singleton. split.
        * intros [[?| ->]|?]; [by left|right; split; [by left|done]|right; tauto].
        * intros [?|[[->|?] ?]]; [left; by left|left; by right|right; tauto].
      + split.
        * intros [?|[? ?]]; [by left|right; tauto].
        * intros [?|[[->|?] Hp]]; [by left|congruence|right; tauto]. }
  rewrite Hfold, elem_of_empty. tauto.
Qed.

Lemma statement_satisfies_control_positive (self : RiskRatingEvaluator) cid ctext :
  positive_evidence self cid ctext = true →
  _statement_satisfies_control self cid ctext = Ok true.
Proof.
  unfold positive_evidence, _statement_satisfies_control. cbn zeta.
  destruct (_statement_present _ _); [done|].
  destruct (negb _ && Py.str_in cid _); [done|].
  by destruct (bool_decide (1 < _)%nat && _).
Qed.

(** Without positive evidence the answer is left to the rules alone. *)
Lemma statement_satisfies_control_negative (self : RiskRatingEvaluator) cid ctext :
  positive_evidence self cid ctext = false →
  _statement_satisfies_control self cid ctext =
    if bool_decide (cid = "lac_passwords_encrypted_in_transit")
    then cond ← getitem "conditions" (conditions (rules self));
         lac ← getitem "logical_access_controls" (cond_logical_access_controls cond);
         Ok false
    else Ok false.
Proof.
  unfold positive_evidence, _statement_satisfies_control. cbn zeta.
  destruct (_statement_present _ _); [done|].
  destruct (negb _ && Py.str_in cid _); [done|].
  destruct (bool_decide (1 < _)%nat && _); [done|]. intros _.
  case_bool_decide; [|done].
  destruct (getitem "conditions" _) as [cond|]; [|done]. rewrite !bind_Ok_l.
  destruct (getitem "logical_access_controls" _) as [lac|]; [|done].
  rewrite !bind_Ok_l. by destruct (existsb _ _).
Qed.

Section notes_grow.
Context (self self' : RiskRatingEvaluator).
Context (Hrules : rules self' = rules self).
Context (Hnotes : occurs_in (notes self) (notes self')).

Lemma present_grows statement :
  _statement_present (notes self) statement = true →
  _statement_present (notes self') statement = true.
Proof. by apply statement_present_mono. Qed.

Lemma str_in_grows s :
  Py.str_in s (notes self) = true → Py.str_in s (notes self') = true.
Proof. by apply str_in_mono. Qed.

Lemma present_statements_grows l :
  present_statements self l ⊆ present_statements self' l.
Proof.
  intros statement. rewrite !elem_of_present_statements.
  intros [? ?]. eauto using present_grows.
Qed.

Lemma apply_cross_satisfaction_grows cross :
  _apply_cross_satisfaction self = Ok cross →
  ∃ cross', _apply_cross_satisfaction self' = Ok cross' ∧ cross ⊆ cross'.
Proof.
  intros Hcross.
  pose proof (apply_cross_satisfaction_conditions self') as Hcross'.
  assert (∃ cond, conditions (rules self) = Some cond) as [cond Hcond].
  { unfold _apply_cross_satisfaction in Hcross.
    destruct (conditions (rules self)); [eauto|done]. }
  rewrite Hrules, Hcond in Hcross'. destruct Hcross' as [cross' Hcross'].
  exists cross'. split; [done|]. intros cid.
  rewrite (apply_cross_satisfaction_spec _ _ _ Hcross).
  rewrite (apply_cross_satisfaction_spec _ _ _ Hcross'). rewrite Hrules.
  intros (c & rule & statement & ? & ? & ? & ? & ?).
  exists c, rule, statement. split_and!; [done..| |done]. by apply present_grows.
Qed.

Lemma positive_evidence_grows cid ctext :
  positive_evidence self cid ctext = true → positive_evidence self' cid ctext = true.
Proof.
  unfold positive_evidence. cbn zeta. rewrite !orb_true_iff, !andb_true_iff.
  intros [[H|[? H]]|(? & ? & H)].
  - left; left. by apply present_grows.
  - left; right. split; [done|]. by apply str_in_grows.
  - right. split_and!; [done..|]. by apply str_in_grows.
Qed.

Lemma statement_satisfies_control_grows cid ctext b :
  _statement_satisfies_control self cid ctext = Ok b →
  ∃ b', _statement_satisfies_control self' cid ctext = Ok b'
        ∧ (b = true → b' = true).
Proof.
  destruct (positive_evidence self' cid ctext) eqn:Hpos'.
  { rewrite (statement_satisfies_control_positive _ _ _ Hpos'). eauto. }
  destruct (positive_evidence self cid ctext) eqn:Hpos.
  { by rewrite (positive_evidence_grows _ _ Hpos) in Hpos'. }
  rewrite (statement_satisfies_control_negative self' cid ctext Hpos'), Hrules,
    <-(statement_satisfies_control_negative self cid ctext Hpos).
  eauto.
Qed.

End notes_grow.

Lemma for_each_related {A S : Type} (R : S → S → Prop)
    (body body' : S → A → result S) (l : list A) (s s' s1 : S) :
  (∀ s s' x s1, R s s' → body s x = Ok s1 → ∃ s1', body' s' x = Ok s1' ∧ R s1 s1') →
  R s s' → for_each body l s = Ok s1 →
  ∃ s1', for_each body' l s' = Ok s1' ∧ R s1 s1'.
Proof.
  intros Hbody. revert s s'. induction l as [|x l IHl]; intros s s' HR Hrun; cbn in *.
  - injection Hrun as <-. eauto.
  - apply bind_Ok in Hrun as (s2 & Hstep & Hrun).
    destruct (Hbody _ _ _ _ HR Hstep) as (s2' & -> & HR2). rewrite bind_Ok_l. eauto.
Qed.

Lemma register_control_grows st st' cid req req' sat sat' ctext ctags :
  status_grows st st' → (sat = true → sat' = true) →
  req' = req ∨ (cid = "net_pii_need_to_know" ∧ req = true ∧ req' = false) →
  status_grows (register_control st cid req sat ctext ctags)
    (register_control st' cid req' sat' ctext ctags).
Proof. intros Hst Hsat Hreq. by apply map_Forall2_insert_2. Qed.

Section controls_grow.
Context (self self' : RiskRatingEvaluator).
Context (Hrules : rules self' = rules self).
Context (Hnotes : occurs_in (notes self) (notes self')).
Context (cross cross' : gset str) (Hcross : cross ⊆ cross').
Context (context : Context).

Lemma check_control_grows st st' control req st1 :
  status_grows st st' →
  check_control self cross st control req = Ok st1 →
  ∃ st1', check_control self' cross' st' control req = Ok st1'
          ∧ status_grows st1 st1'.
Proof.
  intros Hst. unfold check_control.
  destruct (getitem "id" (ctl_id control)) as [cid|]; [|done]. rewrite !bind_Ok_l.
  intros (sat & Hsat & [= <-])%bind_Ok.
  destruct (bool_decide (cid ∈ cross')) eqn:Hin'.
  { rewrite bind_Ok_l. eexists. split; [done|].
    apply register_control_grows; auto. }
  rewrite bool_decide_eq_false_2 in Hsat
    by (apply bool_decide_eq_false in Hin'; set_solver).
  destruct (statement_satisfies_control_grows self self' Hrules Hnotes _ _ _ Hsat)
    as (sat' & -> & Hsat').
  rewrite bind_Ok_l. eexists. split; [done|]. apply register_control_grows; auto.
Qed.

Lemma logical_access_step_grows cond st st' control st1 :
  status_grows st st' →
  logical_access_step self cond context cross st control = Ok st1 →
  ∃ st1', logical_access_step self' cond context cross' st' control = Ok st1'
          ∧ status_grows st1 st1'.
Proof.
  intros Hst. unfold logical_access_step.
  destruct (getitem "id" (ctl_id control)) as [cid|]; [|done]. rewrite !bind_Ok_l.
  by apply check_control_grows.
Qed.

(** The one step that can lower a required flag: the need-to-know control,
    when the extended notes satisfy least privilege and the original ones
    did not. *)
Lemma pii_step_grows cond st st' control st1 :
  status_grows st st' →
  pii_step self cond context cross st control = Ok st1 →
  ∃ st1', pii_step self' cond context cross' st' control = Ok st1'
          ∧ status_grows st1 st1'.
Proof.
  intros Hst. unfold pii_step. cbn zeta.
  destruct (getitem "id" (ctl_id control)) as [cid|] eqn:Hid; [|done].
  rewrite !bind_Ok_l.
  destruct (bool_decide (cid = "net_pii_need_to_know") && _) eqn:Hoverride;
    [|by apply check_control_grows].
  apply andb_true_iff in Hoverride as [Hcid%bool_decide_eq_true _].
  pose proof (Hst "lac_least_privilege") as Hlp.
  destruct (st !! "lac_least_privilege") as [lp|],
           (st' !! "lac_least_privilege") as [lp'|]; inversion Hlp as [? ? Hg|]; subst.
  - destruct (satisfied lp) eqn:Hsat.
    + destruct Hg as (_ & _ & _ & Hg & _). rewrite (Hg Hsat). intros [= <-].
      eexists. split; [done|]. apply register_control_grows; auto.
    + intros Hcheck. destruct (satisfied lp'); [|by eapply check_control_grows].
      apply check_control_registers in Hcheck as (cid' & sat & Hid' & -> & _).
      apply getitem_Ok in Hid. assert (cid' = "net_pii_need_to_know") as ->
        by congruence.
      eexists. split; [done|]. apply register_control_grows; [done..|].
      destruct (negb _); auto.
  - by apply check_control_grows.
Qed.

Lemma evaluate_controls_grows status :
  _evaluate_controls self context cross = Ok status →
  ∃ status', _evaluate_controls self' context cross' = Ok status'
             ∧ status_grows status status'.
Proof.
  intros (st1 & st2 & st3 & st4 & st5 & H1 & H2 & H3 & H4 & H5 & H6)%evaluate_controls_loops.
  cbn zeta in *.
  eapply (for_each_related status_grows) in H1 as (st1' & H1' & R1);
    [|intros ????; apply logical_access_step_grows|apply map_Forall2_empty].
  eapply (for_each_related status_grows) in H2 as (st2' & H2' & R2);
    [|intros ????; apply pii_step_grows|exact R1].
  eapply (for_each_related status_grows) in H3 as (st3' & H3' & R3);
    [|intros ????; apply check_control_grows|exact R2].
  eapply (for_each_related status_grows) in H4 as (st4' & H4' & R4);
    [|intros ????; apply check_control_grows|exact R3].
  eapply (for_each_related status_grows) in H5 as (st5' & H5' & R5);
    [|intros ????; apply check_control_grows|exact R4].
  eapply (for_each_related status_grows) in H6 as (st6' & H6' & R6);
    [|intros ????; apply check_control_grows|exact R5].
  exists st6'. split; [|done].
  apply evaluate_controls_loops. rewrite Hrules.
  exists st1', st2', st3', st4', st5'. cbn zeta. split_and!; eassumption.
Qed.

End controls_grow.

Section collectors_grow.
Context (self self' : RiskRatingEvaluator).
Context (Hrules : rules self' = rules self).
Context (Hnotes : occurs_in (notes self) (notes self')).

Lemma collect_incident_response_elements_grows incidents :
  _collect_incident_response_elements self = Ok incidents →
  ∃ incidents', _collect_incident_response_elements self' = Ok incidents'
                ∧ incidents ⊆ incidents'.
Proof.
  unfold _collect_incident_response_elements. rewrite Hrules.
  destruct (getitem "catalog" _) as [cat|]; [|done]. rewrite !bind_Ok_l.
  intros [= <-]. eexists. split; [done|]. by apply present_statements_grows.
Qed.

Lemma evaluate_info_tech_overview_grows overview :
  _evaluate_info_tech_overview self = Ok overview →
  ∃ overview', _evaluate_info_tech_overview self' = Ok overview'
               ∧ overview ⊆ overview'.
Proof.
  unfold _evaluate_info_tech_overview. rewrite Hrules.
  destruct (getitem "ratings" _) as [rts|]; [|done]. rewrite !bind_Ok_l.
  destruct (ratings_getitem rts very_favorable) as [vf|]; [|done]. rewrite !bind_Ok_l.
  destruct (getitem "info_tech_overview" _) as [ito|]; [|done]. rewrite !bind_Ok_l.
  intros [= <-]. eexists. split; [done|]. by apply present_statements_grows.
Qed.

End collectors_grow.

Lemma ratings_order_descending :
  StronglySorted (λ t1 t2, tier_rank t2 < tier_rank t1)%nat ratings_order.
Proof. unfold ratings_order. repeat constructor; cbn; lia. Qed.

Lemma occurs_in_nonempty (s n : str) : occurs_in s n → s ≠ "" → n ≠ "".
Proof.
  intros (pre & post & ->) Hs Hn. destruct pre; [|done].
  rewrite append_nil_l in Hn. by destruct s.
Qed.

Lemma evaluate_rated (self : RiskRatingEvaluator) (raw : str) (r : EvaluationResult) :
  (evaluate self raw).2 = Ok r →
  favorability (res_rating r) ≠ None →
  _normalize raw ≠ "" ∧ evaluate_rules (evaluate self raw).1 = Ok r.
Proof.
  intros Hr Hrated. split.
  - intros Hempty. apply (evaluate_empty_notes self raw) in Hempty.
    rewrite Hempty in Hr. injection Hr as <-. by apply Hrated.
  - destruct (evaluate_cases self raw) as [H|[H|H]]; rewrite H in Hr; [..|done];
      injection Hr as <-; by destruct Hrated.
Qed.

(** C2, amended.  The extended notes contain the original ones, are not
    degenerate and give the same context; and where the vendor handles PII
    and the original notes left a PII control required, the extended notes
    leave one required.  Then the evaluation of the extended notes returns a
    rating at least as favorable.  The need-to-know control may stop being
    required. *)
Theorem rating_grows_with_notes (self : RiskRatingEvaluator) (raw raw' : str)
    (r : EvaluationResult) :
  occurs_in (_normalize raw) (_normalize raw') →
  (evaluate self raw).2 = Ok r →
  favorability (res_rating r) ≠ None →
  ¬ occurs_in "not applicable" (_normalize raw') →
  ¬ standalone_na (_normalize raw') →
  _build_context (evaluate self raw').1 = _build_context (evaluate self raw).1 →
  (∀ status status',
     res_handles_pii (res_context r) = true →
     control_map self raw = Ok status → control_map self raw' = Ok status' →
     pii_required status → pii_required status') →
  ∃ r', (evaluate self raw').2 = Ok r'
        ∧ never_worse (res_rating r) (res_rating r').
Proof.
  intros Hnotes Hr Hrated Hna1 Hna2 Hcontext Hrequired.
  destruct (evaluate_rated _ _ _ Hr Hrated) as [Hne Hrules_r].
  rewrite evaluate_not_degenerate by eauto using occurs_in_nonempty.
  set (self1 := (evaluate self raw).1) in *.
  set (self2 := (evaluate self raw').1) in *.
  assert (rules self2 = rules self1) as Hrules by done.
  assert (occurs_in (notes self1) (notes self2)) as Hnotes' by done.
  apply evaluate_rules_Ok in Hrules_r
    as (context & cross & status & incidents & overview & rating & details
        & Hctx & Hcross & Hstatus & Hinc & Hov & Hdet & ->).
  destruct (apply_cross_satisfaction_grows self1 self2 Hrules Hnotes' _ Hcross)
    as (cross' & Hcross' & Hsub).
  destruct (evaluate_controls_grows self1 self2 Hrules Hnotes' cross cross' Hsub
              context _ Hstatus) as (status' & Hstatus' & Hgrows).
  destruct (collect_incident_response_elements_grows self1 self2 Hrules Hnotes' _ Hinc)
    as (incidents' & Hinc' & Hsubi).
  destruct (evaluate_info_tech_overview_grows self1 self2 Hrules Hnotes' _ Hov)
    as (overview' & Hov' & Hsubo).
  assert (handles_pii context = true → pii_required status → pii_required status')
    as Hpii.
  { intros Hhandles. apply Hrequired; [done| |].
    - by rewrite (control_map_of_rules _ _ context cross).
    - rewrite (control_map_of_rules _ _ context cross'); [done| |done].
      fold self2. by rewrite Hcontext. }
  destruct (determine_from_grows context status status' incidents incidents'
              overview overview' Hgrows Hpii Hsubi Hsubo self1 self2 ratings_order
              rating details Hrules ratings_order_descending Hdet)
    as (rating' & details' & Hdet' & Hworse).
  unfold evaluate_rules. rewrite Hcontext, Hctx, Hcross', !bind_Ok_l, Hstatus', bind_Ok_l.
  rewrite Hinc', bind_Ok_l, Hov', bind_Ok_l.
  unfold _determine_rating. rewrite Hdet', bind_Ok_l.
  eexists. split; [done|]. exact Hworse.
Qed.

End monotonicity.

(** ** Repeated evaluation and the iteration order *)

Section iteration_order.
Context {U : Py.Unicode}.

Lemma List_filter_Permutation {A : Type} (p : A → bool) (l l' : list A) :
  l ≡ₚ l' → List.filter p l ≡ₚ List.filter p l'.
Proof.
  induction 1 as [|x l l' _ IH|x y l|l l' l'' _ IH1 _ IH2]; cbn.
  - done.
  - destruct (p x); by rewrite IH.
  - destruct (p x), (p y); try done. apply perm_swap.
  - by rewrite IH1.
Qed.

Lemma forallb_Permutation {A : Type} (p : A → bool) (l l' : list A) :
  l ≡ₚ l' → forallb p l = forallb p l'.
Proof.
  induction 1 as [|x l l' _ IH|x y l|l l' l'' _ IH1 _ IH2]; cbn.
  - done.
  - by rewrite IH.
  - by destruct (p x), (p y).
  - by rewrite IH1.
Qed.

Lemma existsb_Permutation {A : Type} (p : A → bool) (l l' : list A) :
  l ≡ₚ l' → existsb p l = existsb p l'.
Proof.
  induction 1 as [|x l l' _ IH|x y l|l l' l'' _ IH1 _ IH2]; cbn.
  - done.
  - by rewrite IH.
  - by destruct (p x), (p y).
  - by rewrite IH1.
Qed.

Lemma nonempty_Permutation {A : Type} (l l' : list A) :
  l ≡ₚ l' → nonempty l = nonempty l'.
Proof.
  intros Hperm. destruct l, l'; try done.
  - by apply Permutation_nil_cons in Hperm.
  - symmetry in Hperm. by apply Permutation_nil_cons in Hperm.
Qed.

Lemma count_Permutation {A : Type} (p : A → bool) (l l' : list A) :
  l ≡ₚ l' → count p l = count p l'.
Proof.
  intros Hperm. unfold count.
  by rewrite (Permutation_length (List_filter_Permutation p _ _ Hperm)).
Qed.

Section ordered.
Context (it : Iteration).

Lemma iter_values_perm status : iter_values it status ≡ₚ values status.
Proof. unfold iter_values, values. by rewrite iter_items_perm. Qed.

Lemma ordered_category_controls prefix status :
  Ordered._category_controls it prefix status ≡ₚ _category_controls prefix status.
Proof.
  unfold Ordered._category_controls, _category_controls.
  apply fmap_Permutation, List_filter_Permutation, iter_items_perm.
Qed.

(** What the tier checks compute from a list of controls does not depend on
    the order of the list. *)
Lemma all_satisfied_Permutation (l l' : list ControlStatus) :
  l ≡ₚ l' →
  forallb satisfied (List.filter required l)
  = forallb satisfied (List.filter required l').
Proof. intros Hperm. by apply forallb_Permutation, List_filter_Permutation. Qed.

Lemma min_count_and_tag_Permutation (l l' : list ControlStatus) (m : Z) tag :
  l ≡ₚ l' →
  (if count satisfied (List.filter required l) <? m then false
   else match tag with
        | Some tag =>
            if negb (bool_decide (tag = ""))
               && negb (any_satisfied_with_tag tag (List.filter required l))
            then false else true
        | None => true
        end)
  = (if count satisfied (List.filter required l') <? m then false
     else match tag with
          | Some tag =>
              if negb (bool_decide (tag = ""))
                 && negb (any_satisfied_with_tag tag (List.filter required l'))
              then false else true
          | None => true
          end).
Proof.
  intros Hperm%(List_filter_Permutation required).
  rewrite (count_Permutation _ _ _ Hperm). unfold any_satisfied_with_tag.
  destruct tag as [tag|]; [|done]. by rewrite (existsb_Permutation _ _ _ Hperm).
Qed.

Lemma ordered_meets_logical_access_controls requirement status :
  Ordered._meets_logical_access_controls it requirement status
  = _meets_logical_access_controls requirement status.
Proof.
  unfold Ordered._meets_logical_access_controls, _meets_logical_access_controls.
  cbn zeta. pose proof (ordered_category_controls "lac_" status) as Hperm.
  destruct (truthy _).
  - by apply all_satisfied_Permutation.
  - by apply min_count_and_tag_Permutation.
Qed.

Lemma ordered_meets_network_controls requirement context status :
  Ordered._meets_network_controls it requirement context status
  = _meets_network_controls requirement context status.
Proof.
  unfold Ordered._meets_network_controls, _meets_network_controls. cbn zeta.
  pose proof (List_filter_Permutation required _ _
                (ordered_category_controls "net_pii_" status)) as Hpii.
  rewrite (nonempty_Permutation _ _ Hpii), (forallb_Permutation _ _ _ Hpii).
  destruct (_ && _ && _); [done|].
  pose proof (List_filter_Permutation
                (λ ctrl, Py.startswith (control_id ctrl) "net_"
                         && negb (Py.startswith (control_id ctrl) "net_pii_"))
                _ _ (iter_values_perm status)) as Hnet.
  destruct (truthy _).
  - by apply all_satisfied_Permutation.
  - by apply min_count_and_tag_Permutation.
Qed.

Lemma ordered_meets_change_mgmt requirement context status :
  Ordered._meets_change_mgmt it requirement context status
  = _meets_change_mgmt requirement context status.
Proof.
  unfold Ordered._meets_change_mgmt, _meets_change_mgmt. cbn zeta.
  pose proof (List_filter_Permutation required _ _
                (ordered_category_controls "chg_" status)) as Hchg.
  by rewrite (forallb_Permutation _ _ _ Hchg), (count_Permutation _ _ _ Hchg).
Qed.

Lemma ordered_meets_remote_workforce requirement context status :
  Ordered._meets_remote_workforce it requirement context status
  = _meets_remote_workforce requirement context status.
Proof.
  unfold Ordered._meets_remote_workforce, _meets_remote_workforce. cbn zeta.
  pose proof (List_filter_Permutation required _ _
                (ordered_category_controls "rw_" status)) as Hrw.
  by rewrite (forallb_Permutation _ _ _ Hrw), (count_Permutation _ _ _ Hrw).
Qed.

Lemma ordered_meets_rating t requirements context status incidents overview plan :
  Ordered._meets_rating it t requirements context status incidents overview plan
  = _meets_rating t requirements context status incidents overview plan.
Proof.
  unfold Ordered._meets_rating, _meets_rating.
  by rewrite ordered_meets_logical_access_controls, ordered_meets_network_controls,
    ordered_meets_change_mgmt, ordered_meets_remote_workforce.
Qed.

(** The lists of the result are sorted: whatever the order of the
    iteration, they come out the same. *)
Lemma ordered_missing_required_controls status :
  Ordered._missing_required_controls it status = _missing_required_controls status.
Proof.
  unfold Ordered._missing_required_controls, _missing_required_controls. cbn zeta.
  apply sorted_order_independent, fmap_Permutation, List_filter_Permutation,
    iter_values_perm.
Qed.

Lemma ordered_build_rating_details t requirements status incidents overview :
  Ordered._build_rating_details it t requirements status incidents overview
  = _build_rating_details t requirements status incidents overview.
Proof.
  unfold Ordered._build_rating_details, _build_rating_details.
  rewrite ordered_missing_required_controls. f_equal.
  - apply sorted_order_independent, fmap_Permutation, List_filter_Permutation,
      iter_values_perm.
  - apply sorted_order_independent, iter_set_perm.
  - apply sorted_order_independent, iter_set_perm.
Qed.

Lemma ordered_determine_from self context status incidents overview plan order :
  Ordered.determine_from it self context status incidents overview plan order
  = determine_from self context status incidents overview plan order.
Proof.
  induction order as [|t order IH]; cbn [Ordered.determine_from determine_from].
  - by rewrite ordered_missing_required_controls.
  - destruct (getitem "ratings" _) as [rts|]; [|done]. rewrite !bind_Ok_l.
    destruct (ratings_getitem rts t) as [requirements|]; [|done]. rewrite !bind_Ok_l.
    by rewrite ordered_meets_rating, ordered_build_rating_details, IH.
Qed.

Lemma ordered_evaluate_rules self :
  Ordered.evaluate_rules it self = evaluate_rules self.
Proof.
  unfold Ordered.evaluate_rules, evaluate_rules.
  destruct (_build_context self) as [context|]; [|done]. rewrite !bind_Ok_l.
  destruct (_apply_cross_satisfaction self) as [cross|]; [|done]. rewrite !bind_Ok_l.
  destruct (_evaluate_controls self context cross) as [status|]; [|done].
  rewrite !bind_Ok_l.
  destruct (_collect_incident_response_elements self) as [incidents|]; [|done].
  rewrite !bind_Ok_l.
  destruct (_evaluate_info_tech_overview self) as [overview|]; [|done].
  rewrite !bind_Ok_l. cbn zeta.
  unfold Ordered._determine_rating, _determine_rating.
  rewrite ordered_determine_from.
  destruct (determine_from _ _ _ _ _ _ _) as [[rating details]|]; [|done].
  rewrite !bind_Ok_l. do 4 f_equal.
  apply sorted_order_independent, iter_set_perm.
Qed.

(** Under every iteration order the evaluation is the one defined above. *)
Lemma ordered_evaluate self raw : Ordered.evaluate it self raw = evaluate self raw.
Proof. unfold Ordered.evaluate, evaluate. cbn zeta. by rewrite ordered_evaluate_rules. Qed.

End ordered.

(** The order is visible before the sort: the two iteration orders list the
    missing controls of a run differently. *)
Lemma unsorted_lists_depend_on_order :
  missing_unsorted reversed_order (DemoRuns.status_of DemoRuns.nothing)
  ≠ missing_unsorted canonical_order (DemoRuns.status_of DemoRuns.nothing).
Proof. vm_compute. discriminate. Qed.

(** C9.  Two calls of [evaluate] with the same rule document and the same
    notes return the same outcome and leave the same state, whatever the
    evaluator holds from an earlier call and in whatever order the two
    calls iterate over dicts and sets: the rating, the details with their
    four lists in the same order, and the context block are equal. *)
Theorem evaluate_deterministic (it it' : Iteration)
    (self other : RiskRatingEvaluator) (raw : str) :
  rules other = rules self →
  Ordered.evaluate it' other raw = Ordered.evaluate it self raw
  ∧ Ordered.evaluate it' (Ordered.evaluate it self raw).1 raw
    = Ordered.evaluate it self raw.
Proof.
  intros Hrules. rewrite !ordered_evaluate. split.
  - unfold evaluate. by rewrite Hrules.
  - reflexivity.
Qed.

End iteration_order.

(** ** The text normalizer *)

Section normal_forms.
Context {U : Py.Unicode}.

Section normalizer.
Implicit Types (s t : str) (c : char) (r : bool).

Lemma isspace_true c :
  Py.isspace c = true ↔
  (9 ≤ c ≤ 13 ∨ 28 ≤ c ≤ 32 ∨ c = 133 ∨ c = 160 ∨ c = 5760 ∨ 8192 ≤ c ≤ 8202
   ∨ c = 8232 ∨ c = 8233 ∨ c = 8239 ∨ c = 8287 ∨ c = 12288)%N.
Proof.
  unfold Py.isspace.
  rewrite !orb_true_iff, !andb_true_iff, !N.leb_le, !N.eqb_eq. tauto.
Qed.

Lemma isspace_lower_char c : Py.isspace (Py.lower_char c) = Py.isspace c.
Proof.
  apply eq_true_iff_eq. rewrite !isspace_true. unfold Py.lower_char.
  destruct (_ && _) eqn:Hupper; [|done].
  apply andb_true_iff in Hupper as [?%N.leb_le ?%N.leb_le]. lia.
Qed.

Lemma blank_app s t : Py.blank (s +:+ t) = Py.blank s && Py.blank t.
Proof.
  induction s as [|c s IHs]; [done|]. rewrite append_cons. cbn.
  by rewrite IHs, andb_assoc.
Qed.

Lemma blank_lower_ascii s : Py.blank (Py.lower_ascii s) = Py.blank s.
Proof.
  induction s as [|c s IHs]; [done|]. cbn. by rewrite isspace_lower_char, IHs.
Qed.

Lemma blank_lower s : Py.blank (Py.lower s) = Py.blank s.
Proof.
  unfold Py.lower. destruct (Py.all_ascii s).
  - apply blank_lower_ascii.
  - apply Py.unicode_lower_blank.
Qed.

Lemma startswith_head s c o old :
  Py.startswith (Str c s) (Str o old) = true → c = o.
Proof. cbn. by intros [->%bool_decide_eq_true _]%andb_true_iff. Qed.

Lemma blank_replace (o : char) (old new s : str) :
  Py.isspace o = false → Py.blank new = false →
  Py.blank (Py.replace (Str o old) new s) = Py.blank s.
Proof.
  intros Ho Hnew. unfold Py.replace.
  induction s as [|c s IHs]; [done|]. cbn [Py.replace_go].
  destruct (Py.startswith (Str c s) (Str o old)) eqn:Hstart.
  - apply startswith_head in Hstart as ->. rewrite blank_app, Hnew. cbn. by rewrite Ho.
  - cbn. by rewrite IHs.
Qed.

Lemma blank_sub_spaces_go r s : Py.blank (Py.sub_spaces_go r s) = Py.blank s.
Proof.
  revert r. induction s as [|c s IHs]; intros r; [done|]. cbn.
  destruct (Py.isspace c) eqn:Hc; [|by cbn; rewrite Hc].
  destruct r; cbn; by rewrite IHs.
Qed.

Lemma lstrip_blank s : Py.blank s = true → Py.lstrip s = "".
Proof.
  induction s as [|c s IHs]; [done|]. cbn. intros [-> ?]%andb_true_iff. auto.
Qed.

Lemma blank_lstrip s : Py.blank (Py.lstrip s) = Py.blank s.
Proof.
  induction s as [|c s IHs]; [done|]. cbn.
  destruct (Py.isspace c) eqn:Hc; [done|]. cbn. by rewrite Hc.
Qed.

Lemma rstrip_empty s : Py.rstrip s = "" ↔ Py.blank s = true.
Proof.
  induction s as [|c s IHs]; [done|]. cbn. rewrite andb_true_iff, <-IHs.
  destruct (Py.rstrip s); [|by split; [|intros [_ ?]]].
  destruct (Py.isspace c); split; try done. by intros [? _].
Qed.

Lemma strip_empty s : Py.strip s = "" ↔ Py.blank s = true.
Proof. unfold Py.strip. by rewrite rstrip_empty, blank_lstrip. Qed.

Lemma normalize_empty raw : _normalize raw = "" ↔ Py.blank raw = true.
Proof.
  unfold _normalize. cbn zeta. rewrite strip_empty. unfold Py.sub_spaces.
  by rewrite blank_sub_spaces_go, blank_replace, blank_lower.
Qed.

Lemma single_spaced_sub_spaces_go r s : single_spaced r (Py.sub_spaces_go r s) = true.
Proof.
  revert r. induction s as [|c s IHs]; intros r; [done|]. cbn.
  destruct (Py.isspace c) eqn:Hc.
  - destruct r; [done|]. cbn. by rewrite IHs.
  - cbn. by rewrite Hc.
Qed.

Lemma single_spaced_weaken r s : single_spaced true s = true → single_spaced r s = true.
Proof.
  destruct r; [done|]. destruct s as [|c s]; [done|]. cbn.
  destruct (Py.isspace c); [|done]. by rewrite andb_false_r.
Qed.

Lemma single_spaced_lstrip r s :
  single_spaced r s = true → single_spaced false (Py.lstrip s) = true.
Proof.
  revert r. induction s as [|c s IHs]; intros r; [done|]. cbn.
  destruct (Py.isspace c) eqn:Hc.
  - intros [_ ?]%andb_true_iff. by eapply IHs.
  - intros ?. cbn. by rewrite Hc.
Qed.

Lemma single_spaced_cons r c s :
  single_spaced r (Str c s) =
    if Py.isspace c
    then bool_decide (c = 32%N) && negb r && single_spaced true s
    else single_spaced false s.
Proof. reflexivity. Qed.

Lemma single_spaced_rstrip r s :
  single_spaced r s = true → single_spaced r (Py.rstrip s) = true.
Proof.
  revert r. induction s as [|c s IHs]; intros r; [done|].
  rewrite single_spaced_cons. cbn [Py.rstrip].
  destruct (Py.isspace c) eqn:Hc.
  - intros [Hhead Hs]%andb_true_iff. specialize (IHs _ Hs).
    destruct (Py.rstrip s) as [|c' t'] eqn:Ht; [done|].
    by rewrite single_spaced_cons, Hc, Hhead, IHs.
  - intros Hs. specialize (IHs _ Hs). destruct (Py.rstrip s) as [|c' t'] eqn:Ht.
    + by rewrite single_spaced_cons, Hc.
    + by rewrite single_spaced_cons, Hc.
Qed.

Lemma starts_with_space_lstrip s : starts_with_space (Py.lstrip s) = false.
Proof.
  induction s as [|c s IHs]; [done|]. cbn.
  destruct (Py.isspace c) eqn:Hc; [done|]. by cbn.
Qed.

Lemma starts_with_space_rstrip s :
  starts_with_space s = false → starts_with_space (Py.rstrip s) = false.
Proof.
  destruct s as [|c s]; [done|]. cbn. intros Hc.
  destruct (Py.rstrip s); by rewrite ?Hc.
Qed.

Lemma ends_with_space_rstrip s : ends_with_space (Py.rstrip s) = false.
Proof.
  induction s as [|c s IHs]; [done|]. cbn.
  destruct (Py.rstrip s) as [|c' t'] eqn:Ht.
  - by destruct (Py.isspace c) eqn:Hc; cbn; rewrite ?Hc.
  - done.
Qed.

(** *** The words of a text *)

Lemma words_cons_space c s : Py.isspace c = true → words (Str c s) = words s.
Proof. cbn. by intros ->. Qed.

Lemma words_cons c s :
  Py.isspace c = false →
  words (Str c s) =
    if starts_with_space s then Str c "" :: words s
    else match words s with
         | w :: ws => Str c w :: ws
         | [] => [Str c ""]
         end.
Proof. cbn [words]. intros ->. by destruct s. Qed.

Lemma words_nonempty s : Forall (λ w, w ≠ "") (words s).
Proof.
  induction s as [|c s IHs]; [by constructor|].
  destruct (Py.isspace c) eqn:Hc.
  - by rewrite words_cons_space.
  - rewrite words_cons by done. destruct (starts_with_space s).
    + by constructor.
    + destruct (words s) as [|w ws]; [by repeat constructor|].
      apply Forall_cons in IHs as [_ ?]. by constructor.
Qed.

Lemma words_blank s : words s = [] ↔ Py.blank s = true.
Proof.
  induction s as [|c s IHs]; [done|]. cbn [Py.blank].
  destruct (Py.isspace c) eqn:Hc.
  - by rewrite words_cons_space.
  - rewrite words_cons by done. cbn. split; [|done].
    destruct (starts_with_space s); [done|]. by destruct (words s).
Qed.

Lemma words_lstrip s : words (Py.lstrip s) = words s.
Proof.
  induction s as [|c s IHs]; [done|]. cbn [Py.lstrip].
  destruct (Py.isspace c) eqn:Hc; [|done]. by rewrite words_cons_space.
Qed.

Lemma join_cons_char sep c w ws :
  Py.join sep (Str c w :: ws) = Str c (Py.join sep (w :: ws)).
Proof. by destruct ws. Qed.

Lemma join_empty sep ws : Forall (λ w, w ≠ "") ws → Py.join sep ws = "" ↔ ws = [].
Proof.
  destruct ws as [|[|c w] ws]; [done| |].
  - by intros [? _]%Forall_cons.
  - intros _. by rewrite join_cons_char.
Qed.

Lemma join_words_empty s : Py.join " " (words s) = "" ↔ Py.blank s = true.
Proof. by rewrite join_empty, words_blank by apply words_nonempty. Qed.

(** *** Collapsing and trimming give the words joined by single spaces *)

Lemma rstrip_cons c s :
  Py.isspace c = false → Py.rstrip (Str c s) = Str c (Py.rstrip s).
Proof. cbn. intros ->. by destruct (Py.rstrip s). Qed.

Lemma rstrip_cons_space s :
  Py.rstrip (Str 32%N s) = match Py.rstrip s with
                           | EmptyStr => EmptyStr
                           | t => Str 32%N t
                           end.
Proof. reflexivity. Qed.

Lemma lstrip_sub_spaces_go r s :
  Py.lstrip (Py.sub_spaces_go r s) = Py.sub_spaces_go false (Py.lstrip s).
Proof.
  revert r. induction s as [|c s IHs]; intros r; [done|]. cbn.
  destruct (Py.isspace c) eqn:Hc.
  - destruct r; [apply IHs|]. cbn. apply IHs.
  - cbn. by rewrite Hc.
Qed.

Lemma rstrip_sub_spaces_go s :
  Py.rstrip (Py.sub_spaces_go true s) = Py.join " " (words s)
  ∧ Py.rstrip (Py.sub_spaces_go false s) =
      if starts_with_space s
      then match words s with
           | [] => ""
           | ws => Str 32%N (Py.join " " ws)
           end
      else Py.join " " (words s).
Proof.
  induction s as [|c s [IHrun IHs]]; [done|].
  cbn [Py.sub_spaces_go starts_with_space]. destruct (Py.isspace c) eqn:Hc.
  - rewrite words_cons_space by done. split; [done|].
    rewrite rstrip_cons_space, IHrun.
    pose proof (join_empty " " (words s) (words_nonempty s)) as Hempty.
    destruct (words s) as [|w ws]; [done|].
    destruct (Py.join " " (w :: ws)) eqn:Hjoin; [|done].
    discriminate (proj1 Hempty eq_refl).
  - rewrite rstrip_cons, IHs, words_cons by done.
    assert (Str c (if starts_with_space s
                   then match words s with
                        | [] => ""
                        | ws => Str 32%N (Py.join " " ws)
                        end
                   else Py.join " " (words s))
            = Py.join " " (if starts_with_space s then Str c "" :: words s
                           else match words s with
                                | w :: ws => Str c w :: ws
                                | [] => [Str c ""]
                                end)) as Hjoin; [|done].
    destruct (starts_with_space s).
    + by destruct (words s).
    + destruct (words s) as [|w ws]; [done|]. by rewrite join_cons_char.
Qed.

Lemma strip_sub_spaces s : Py.strip (Py.sub_spaces s) = Py.join " " (words s).
Proof.
  unfold Py.strip, Py.sub_spaces. rewrite lstrip_sub_spaces_go.
  destruct (rstrip_sub_spaces_go (Py.lstrip s)) as [_ ->].
  by rewrite starts_with_space_lstrip, words_lstrip.
Qed.

(** The normalizer computes the normal form. *)
Lemma normalize_normal_form raw : _normalize raw = normal_form raw.
Proof. unfold _normalize, normal_form. cbn zeta. apply strip_sub_spaces. Qed.

Lemma normal_form_empty raw : normal_form raw = "" ↔ Py.blank raw = true.
Proof. by rewrite <-normalize_normal_form, normalize_empty. Qed.

End normalizer.

(** X1.  Normalized text holds no whitespace but single spaces between
    other characters: no tab or line break, no two spaces in a row, no
    space at either end. *)
Theorem normalize_shape (raw : str) :
  single_spaced false (_normalize raw) = true
  ∧ starts_with_space (_normalize raw) = false
  ∧ ends_with_space (_normalize raw) = false.
Proof.
  unfold _normalize, Py.strip, Py.sub_spaces. cbn zeta. split_and!.
  - apply single_spaced_rstrip. eapply single_spaced_lstrip.
    apply single_spaced_sub_spaces_go.
  - apply starts_with_space_rstrip, starts_with_space_lstrip.
  - apply ends_with_space_rstrip.
Qed.

(** X2.  [evaluate] answers [no_information_provided] for the notes made of
    whitespace alone and for no others; it answers [n_a] for the notes that
    are not Py.blank and hold "not applicable" or a standalone "n/a" once
    normalized, and for no others. *)
Theorem degenerate_ratings_exact (self : RiskRatingEvaluator) (raw : str)
    (r : EvaluationResult) :
  (evaluate self raw).2 = Ok r →
  (res_rating r = no_information_provided ↔ Py.blank raw = true)
  ∧ (res_rating r = n_a ↔
     Py.blank raw = false
     ∧ (occurs_in "not applicable" (normal_form raw) ∨ standalone_na (normal_form raw))).
Proof.
  rewrite <-!normalize_normal_form.
  rewrite <-str_in_spec, <-search_na_spec, <-orb_true_iff, <-not_true_iff_false.
  rewrite <-normalize_empty. unfold evaluate; cbn [snd notes].
  case_bool_decide as Hempty.
  { intros [= <-]. cbn. split; [done|]. split; [done|]. by intros [? _]. }
  destruct (_ || _) eqn:Hna.
  { intros [= <-]. cbn. split; [done|]. by split. }
  intros (context & cross & status & incidents & overview & rating & details
          & _ & _ & _ & _ & _ & Hdet & ->)%evaluate_rules_Ok. cbn.
  apply determine_from_Ok in Hdet as [[-> _]|(t & ? & _ & -> & _)];
    (split; split; [done|done|done|by intros [_ ?]]).
Qed.


(** C5.  Notes whose normal form is empty, which are the notes of
    whitespace alone, are rated [no_information_provided]; other notes whose
    normal form holds "not applicable" or a standalone "n/a" are rated
    [n_a], so the notes that read n/a in any case are.  Both results have
    empty details and an all-false context, and they are returned whatever
    the rule document holds and whatever else the notes hold. *)
Theorem degenerate_notes (self : RiskRatingEvaluator) (raw : str) :
  (normal_form raw = "" ∨ Py.blank raw = true →
   (evaluate self raw).2 = Ok (short_circuit no_information_provided))
  ∧ (normal_form raw ≠ "" →
     occurs_in "not applicable" (normal_form raw) ∨ standalone_na (normal_form raw) →
     (evaluate self raw).2 = Ok (short_circuit n_a))
  ∧ (Py.lower raw = "n/a" → (evaluate self raw).2 = Ok (short_circuit n_a)).
Proof.
  assert (normal_form raw ≠ "" →
          occurs_in "not applicable" (normal_form raw)
          ∨ standalone_na (normal_form raw) →
          (evaluate self raw).2 = Ok (short_circuit n_a)) as Hna.
  { rewrite <-normalize_normal_form. unfold evaluate; cbn [snd notes].
    intros Hne Hna. rewrite bool_decide_eq_false_2 by done.
    rewrite <-str_in_spec, <-search_na_spec, <-orb_true_iff in Hna.
    by rewrite Hna. }
  split_and!; [|done|].
  - rewrite <-normal_form_empty, <-normalize_normal_form.
    intros Hempty. apply evaluate_empty_notes. tauto.
  - intros Hlower.
    assert (normal_form raw = "n/a") as Hform.
    { unfold normal_form. by rewrite Hlower. }
    apply Hna; rewrite Hform; [done|]. right. by exists "", "".
Qed.

End normal_forms.

(** ** The text matcher for a control *)

Section identifiers.
Context {U : Py.Unicode}.

(** The matcher answers true on positive evidence (the text, the identifier
    or the tail token is in the notes).  Without it the answer is false, or
    the [KeyError] of the passwords control when the conditions or their
    logical-access section are missing. *)
Lemma statement_satisfies_control_positive_or_not (self : RiskRatingEvaluator)
    (cid ctext : str) :
  _statement_satisfies_control self cid ctext =
    if positive_evidence self cid ctext then Ok true
    else if bool_decide (cid = "lac_passwords_encrypted_in_transit")
    then match conditions (rules self) with
         | None => Raise (KeyError "conditions")
         | Some cond =>
             match cond_logical_access_controls cond with
             | None => Raise (KeyError "logical_access_controls")
             | Some _ => Ok false
             end
         end
    else Ok false.
Proof.
  destruct (positive_evidence self cid ctext) eqn:Hpos.
  - by apply statement_satisfies_control_positive.
  - rewrite (statement_satisfies_control_negative _ _ _ Hpos).
    case_bool_decide; [|done].
    destruct (conditions (rules self)) as [cond|]; [|done]. cbn.
    by destruct (cond_logical_access_controls cond).
Qed.

Lemma split_nonword_all_word (s : str) :
  all_word s = true → Py.split_nonword s = [s].
Proof.
  unfold Py.split_nonword. induction s as [|c s IHs]; [done|]. cbn.
  intros [-> Hs]%andb_true_iff. by rewrite (IHs Hs).
Qed.

(** X4.  An identifier made of letters, digits and underscores is one piece
    for [re.split(r"\W+", id)], so it has no tail token: such a control is
    matched by its text or by its whole identifier and by nothing else. *)
Theorem word_identifier_has_no_tail_token (self : RiskRatingEvaluator)
    (cid ctext : str) :
  all_word cid = true →
  cid ≠ "lac_passwords_encrypted_in_transit" →
  _statement_satisfies_control self cid ctext =
    Ok (_statement_present (notes self) ctext
        || negb (bool_decide (cid = "")) && Py.str_in cid (notes self)).
Proof.
  intros Hword Hne. rewrite statement_satisfies_control_positive_or_not.
  unfold positive_evidence. cbn zeta. rewrite (split_nonword_all_word _ Hword).
  cbn [length tail]. rewrite (bool_decide_eq_false_2 (1 < 1)%nat) by lia.
  rewrite andb_false_l, orb_false_r, (bool_decide_eq_false_2 _ Hne).
  by destruct (_ || _).
Qed.

(** An identifier with a non-word separator does have one. *)
Example tail_token_ex :
  _statement_satisfies_control
    {| rules := Demo.demo_rules; notes := "mfa critical is enforced" |}
    "lac-mfa-critical" "MFA is required for critical systems"
  = Ok true.
Proof. reflexivity. Qed.

End identifiers.

(** ** The context and the cross-satisfied set *)

Section context_flags.
Context {U : Py.Unicode}.

Lemma existsb_elem_of {A : Type} (p : A → bool) (l : list A) :
  existsb p l = true ↔ ∃ x, x ∈ l ∧ p x = true.
Proof. rewrite existsb_exists. by setoid_rewrite list_elem_of_In. Qed.

(** X5.  The context flags, read off the notes: the vendor handles PII when
    a configured PII statement is present, remote work is allowed when the
    configured statement is not empty and present, and the vendor is a
    software provider when one of the nine fixed phrases occurs in the
    normalized notes.  With nothing configured the first two are false. *)
Theorem build_context_exact (self : RiskRatingEvaluator) (cond : Conditions)
    (context : Context) :
  conditions (rules self) = Some cond →
  _build_context self = Ok context →
  (handles_pii context = true ↔
   ∃ lac statements statement,
     cond_logical_access_controls cond = Some lac
     ∧ pii_positive_statements lac = Some statements
     ∧ statement ∈ statements ∧ statement ≠ ""
     ∧ occurs_in (_normalize statement) (notes self))
  ∧ (remote_work_allowed context = true ↔
     ∃ rw statement,
       cond_remote_workforce cond = Some rw
       ∧ enforce_only_if_remote_work_allowed rw = Some statement
       ∧ statement ≠ ""
       ∧ occurs_in (_normalize statement) (notes self))
  ∧ (software_provider context = true ↔
     ∃ phrase, phrase ∈ SOFTWARE_PROVIDER_KEYWORDS ∧ occurs_in phrase (notes self)).
Proof.
  unfold _build_context. intros -> [= <-]. cbn [handles_pii remote_work_allowed
    software_provider]. split_and!.
  - rewrite existsb_elem_of. setoid_rewrite statement_present_true. split.
    + intros (statement & Hin & Hne & Hocc).
      destruct (cond_logical_access_controls cond) as [lac|]; [|by apply elem_of_nil in Hin].
      cbn in Hin. destruct (pii_positive_statements lac) as [statements|] eqn:Hst;
        [|by apply elem_of_nil in Hin].
      exists lac, statements, statement. done.
    + intros (lac & statements & statement & -> & Hst & ? & ? & ?). cbn. rewrite Hst.
      by exists statement.
  - rewrite andb_true_iff, negb_true_iff, bool_decide_eq_false, statement_present_true.
    split.
    + intros [Hne [_ Hocc]].
      destruct (cond_remote_workforce cond) as [rw|]; [|done].
      cbn in Hne, Hocc. destruct (enforce_only_if_remote_work_allowed rw) as [statement|] eqn:Hst; [|done].
      exists rw, statement. done.
    + intros (rw & statement & -> & Hst & ? & ?). cbn. by rewrite Hst.
  - change (existsb (λ phrase, Py.str_in phrase (notes self))
              SOFTWARE_PROVIDER_KEYWORDS = true
            ↔ ∃ phrase, phrase ∈ SOFTWARE_PROVIDER_KEYWORDS
                        ∧ occurs_in phrase (notes self)).
    rewrite existsb_elem_of. by setoid_rewrite str_in_spec.
Qed.

(** X6.  The cross-satisfied set does not depend on the order of the rules:
    two rule documents that list the same cross-satisfaction rules in
    different orders give the same set on the same notes. *)
Theorem cross_satisfaction_order_independent (self self' : RiskRatingEvaluator)
    (cond cond' : Conditions) :
  notes self' = notes self →
  conditions (rules self) = Some cond →
  conditions (rules self') = Some cond' →
  default [] (cross_satisfaction cond) ≡ₚ default [] (cross_satisfaction cond') →
  _apply_cross_satisfaction self' = _apply_cross_satisfaction self.
Proof.
  intros Hnotes Hcond Hcond' Hperm. unfold _apply_cross_satisfaction.
  rewrite Hcond, Hcond'. cbn. f_equal. apply set_eq. intros cid.
  rewrite !cross_rules_spec, Hnotes. by setoid_rewrite Hperm.
Qed.

End context_flags.

(** ** What a returned result tells *)

Section results.
Context {U : Py.Unicode}.

Lemma registering_loop_keys (cross : gset str)
    (step : StatusMap → Control → result StatusMap) (l : list Control)
    (status status' : StatusMap) (k : str) :
  registers cross step →
  for_each step l status = Ok status' →
  is_Some (status' !! k) → is_Some (status !! k) ∨ Some k ∈ ctl_id <$> l.
Proof.
  intros Hstep. revert status. induction l as [|control l IHl]; intros status Hrun Hk.
  - cbn in Hrun. injection Hrun as <-. by left.
  - cbn in Hrun. apply bind_Ok in Hrun as (st1 & Hst1 & Hrun).
    destruct (IHl _ Hrun Hk) as [Hk1|Hin]; [|right; rewrite fmap_cons; by right].
    apply Hstep in Hst1 as (cid & req & sat & Hid & -> & _).
    unfold register_control in Hk1. rewrite lookup_insert in Hk1.
    case_decide as Hcid; [|by left]. subst k. right. rewrite fmap_cons, Hid. by left.
Qed.

(** X7.  The control map that [_evaluate_controls] returns has a status for
    the identifier of every control of the catalog and for nothing else. *)
Theorem control_map_domain (self : RiskRatingEvaluator) (context : Context)
    (cross : gset str) (status : StatusMap) (cid : str) :
  _evaluate_controls self context cross = Ok status →
  is_Some (status !! cid) ↔
  ∃ control,
    control ∈ catalog_controls (default no_catalog (catalog (rules self)))
    ∧ ctl_id control = Some cid.
Proof.
  intros Hrun. split.
  - apply evaluate_controls_loops in Hrun
      as (st1 & st2 & st3 & st4 & st5 & H1 & H2 & H3 & H4 & H5 & H6).
    cbn zeta in *. intros Hk.
    assert (Some cid ∈ ctl_id <$>
              catalog_controls (default no_catalog (catalog (rules self)))) as Hin.
    { unfold catalog_controls. cbn zeta. rewrite !fmap_app, !elem_of_app.
      destruct (registering_loop_keys _ _ _ _ _ cid
                  (always_required_step_registers _ _) H6 Hk) as [Hk5|?]; [|by auto 10].
      destruct (registering_loop_keys _ _ _ _ _ cid
                  (remote_workforce_step_registers _ _ _) H5 Hk5) as [Hk4|?]; [|by auto 10].
      destruct (registering_loop_keys _ _ _ _ _ cid
                  (change_mgmt_step_registers _ _ _) H4 Hk4) as [Hk3|?]; [|by auto 10].
      destruct (registering_loop_keys _ _ _ _ _ cid
                  (always_required_step_registers _ _) H3 Hk3) as [Hk2|?]; [|by auto 10].
      destruct (registering_loop_keys _ _ _ _ _ cid
                  (pii_step_registers _ _ _ _) H2 Hk2) as [Hk1|?]; [|by auto 10].
      destruct (registering_loop_keys _ _ _ _ _ cid
                  (logical_access_step_registers _ _ _ _) H1 Hk1) as [Hk0|?]; [|by auto 10].
      rewrite lookup_empty in Hk0. by destruct Hk0. }
    apply list_elem_of_fmap in Hin as (control & ? & ?). by exists control.
  - intros (control & Hin & Hid).
    destruct (evaluate_controls_total _ _ _ _ _ Hrun Hin) as (cid' & Hid' & ?).
    congruence.
Qed.

(** X8.  A result of the rules lists the incident-response elements it
    found in ascending order and without repetition: they are the elements
    of the catalog present in the normalized notes. *)
Theorem result_incident_elements (self : RiskRatingEvaluator) (raw : str)
    (r : EvaluationResult) :
  (evaluate self raw).2 = Ok r →
  favorability (res_rating r) ≠ None →
  ∃ cat found,
    catalog (rules self) = Some cat
    ∧ res_incident_elements (res_context r) = Some found
    ∧ StronglySorted Py.le found
    ∧ NoDup found
    ∧ ∀ element,
        element ∈ found ↔
        element ∈ default [] (incident_response_elements cat)
        ∧ _statement_present (_normalize raw) element = true.
Proof.
  intros Hr Hrated. destruct (evaluate_rated _ _ _ Hr Hrated) as [_ Hrules].
  apply evaluate_rules_Ok in Hrules
    as (context & cross & status & incidents & overview & rating & details
        & _ & _ & _ & Hinc & _ & _ & ->).
  unfold _collect_incident_response_elements in Hinc.
  apply bind_Ok in Hinc as (cat & Hcat%getitem_Ok & [= <-]).
  exists cat, (Py.sorted (elements (present_statements (evaluate self raw).1
                 (default [] (incident_response_elements cat))))).
  split_and!; [done|done|apply sorted_ascending| |].
  - apply NoDup_sorted, NoDup_elements.
  - intros element. by rewrite elem_of_sorted, elem_of_elements, elem_of_present_statements.
Qed.

(** X9.  The details agree with the rating: a tier comes with the details
    of that tier, the fallback with the fixed reason, a short-circuit rating
    with empty details.  Every list of the details is in ascending order,
    and no identifier is both satisfied and missing. *)
Theorem details_agree_with_rating (self : RiskRatingEvaluator) (raw : str)
    (r : EvaluationResult) :
  (evaluate self raw).2 = Ok r →
  match res_details r with
  | no_details => favorability (res_rating r) = None
  | rating_details t satisfied_list missing incidents overview =>
      res_rating r = tier t
      ∧ StronglySorted Py.le satisfied_list
      ∧ StronglySorted Py.le missing
      ∧ StronglySorted Py.le incidents
      ∧ StronglySorted Py.le overview
      ∧ ∀ cid, cid ∈ satisfied_list → cid ∉ missing
  | fallback_details reason missing =>
      res_rating r = very_unfavorable
      ∧ reason = fallback_reason
      ∧ StronglySorted Py.le missing
  end.
Proof.
  intros Hr. destruct (evaluate_cases self raw) as [H|[H|H]]; rewrite H in Hr.
  - by injection Hr as <-.
  - by injection Hr as <-.
  - apply evaluate_rules_Ok in Hr
      as (context & cross & status & incidents & overview & rating & details
          & _ & _ & Hstatus & _ & _ & Hdet & ->).
    cbn [res_details res_rating].
    apply determine_from_Ok in Hdet as [[-> ->]|(t & reqs & _ & -> & -> & _)].
    + split_and!; [done..|apply sorted_ascending].
    + cbn. split_and!; [done|apply sorted_ascending..|].
      assert (keyed status) as Hkey by (intros ???; by eapply evaluate_controls_key).
      intros cid. rewrite elem_of_sorted, elem_of_selected_ids by done.
      rewrite missing_required_controls_spec by done.
      intros (ctrl & Hc & [Hs _]%andb_true_iff) (ctrl' & Hc' & _ & Hs'). congruence.
Qed.

(** X10.  A result of the rules is returned only for a rule document that
    has the conditions, the catalog, the ratings, the tier [very_favorable]
    and the overview requirement of that tier, whichever tier is awarded. *)
Theorem rated_result_needs_sections (self : RiskRatingEvaluator) (raw : str)
    (r : EvaluationResult) :
  (evaluate self raw).2 = Ok r →
  favorability (res_rating r) ≠ None →
  ∃ cond cat rts best overview,
    conditions (rules self) = Some cond
    ∧ catalog (rules self) = Some cat
    ∧ ratings (rules self) = Some rts
    ∧ ratings_very_favorable rts = Some best
    ∧ req_info_tech_overview best = Some overview.
Proof.
  intros Hr Hrated. destruct (evaluate_rated _ _ _ Hr Hrated) as [_ Hrules].
  apply evaluate_rules_Ok in Hrules
    as (context & cross & status & incidents & ov & rating & details
        & Hctx & _ & _ & Hinc & Hov & _ & _).
  unfold _build_context in Hctx. apply bind_Ok in Hctx as (cond & Hcond%getitem_Ok & _).
  unfold _collect_incident_response_elements in Hinc.
  apply bind_Ok in Hinc as (cat & Hcat%getitem_Ok & _).
  unfold _evaluate_info_tech_overview in Hov.
  apply bind_Ok in Hov as (rts & Hrts%getitem_Ok & Hov).
  apply bind_Ok in Hov as (best & Hbest%getitem_Ok & Hov).
  apply bind_Ok in Hov as (overview & Hoverview%getitem_Ok & _).
  exists cond, cat, rts, best, overview. done.
Qed.

End results.

(** ** The tier loop *)

Section tiers.
Context {U : Py.Unicode}.

(** X11.  [_determine_rating] awards the first tier of the fixed order
    whose requirements are met: every more favorable tier has requirements
    in the rule document and fails them; [very_unfavorable] is returned
    when all four tiers fail. *)
Theorem awarded_tier_is_first_met (self : RiskRatingEvaluator) (context : Context)
    (status : StatusMap) (incidents overview : gset str) (plan : bool)
    (rating : Rating) (details : Details) :
  _determine_rating self context status incidents overview plan = Ok (rating, details) →
  ∃ rts,
    ratings (rules self) = Some rts
    ∧ match rating with
      | tier t =>
          (∃ requirements,
             ratings_getitem rts t = Ok requirements
             ∧ _meets_rating t requirements context status incidents overview plan = true)
          ∧ ∀ t', (tier_rank t < tier_rank t')%nat →
                  ∃ requirements',
                    ratings_getitem rts t' = Ok requirements'
                    ∧ _meets_rating t' requirements' context status incidents overview
                        plan = false
      | very_unfavorable =>
          ∀ t', ∃ requirements',
                  ratings_getitem rts t' = Ok requirements'
                  ∧ _meets_rating t' requirements' context status incidents overview
                      plan = false
      | no_information_provided | n_a => False
      end.
Proof.
  unfold _determine_rating, ratings_order. cbn [determine_from].
  destruct (ratings (rules self)) as [rts|]; [|done]. cbn [getitem]. rewrite !bind_Ok_l.
  intros H. exists rts. split; [done|]. revert H.
  destruct (ratings_getitem rts very_favorable) as [r1|] eqn:E1; [|done].
  rewrite bind_Ok_l.
  destruct (_meets_rating very_favorable r1 _ _ _ _ _) eqn:M1.
  { intros [= <- <-]. split; [eauto|]. intros []; cbn; lia. }
  destruct (ratings_getitem rts favorable) as [r2|] eqn:E2; [|done].
  rewrite bind_Ok_l.
  destruct (_meets_rating favorable r2 _ _ _ _ _) eqn:M2.
  { intros [= <- <-]. split; [eauto|]. intros []; cbn; try lia; eauto. }
  destruct (ratings_getitem rts neutral) as [r3|] eqn:E3; [|done].
  rewrite bind_Ok_l.
  destruct (_meets_rating neutral r3 _ _ _ _ _) eqn:M3.
  { intros [= <- <-]. split; [eauto|]. intros []; cbn; try lia; eauto. }
  destruct (ratings_getitem rts unfavorable) as [r4|] eqn:E4; [|done].
  rewrite bind_Ok_l.
  destruct (_meets_rating unfavorable r4 _ _ _ _ _) eqn:M4.
  { intros [= <- <-]. split; [eauto|]. intros []; cbn; try lia; eauto. }
  intros [= <- <-]. intros []; eauto.
Qed.

Lemma count_nonnegative {A : Type} (p : A → bool) (l : list A) : (count p l <? 0) = false.
Proof. unfold count. apply Z.ltb_ge. lia. Qed.

(** X12.  A tier whose requirement block names no requirement is met by any
    evidence: every absent field of the block defaults to "no requirement". *)
Theorem empty_requirements_are_met (t : Tier) (context : Context) (status : StatusMap)
    (incidents overview : gset str) (plan : bool) :
  _meets_rating t
    {| req_info_tech_overview := None;
       req_logical_access_controls := None;
       req_network_information_security := None;
       req_change_mgmt_sdlc := None;
       req_remote_workforce := None;
       req_incident_response := None;
       req_business_continuity := None |}
    context status incidents overview plan = true.
Proof.
  apply meets_rating_true. cbn [default req_info_tech_overview
    req_logical_access_controls req_network_information_security req_change_mgmt_sdlc
    req_remote_workforce req_incident_response req_business_continuity].
  split_and!; [done| | | | |done|done].
  - unfold _meets_logical_access_controls. cbn. by rewrite count_nonnegative.
  - unfold _meets_network_controls. cbn. by rewrite count_nonnegative.
  - unfold _meets_change_mgmt. cbn.
    destruct (software_provider context); cbn; [|done]. by rewrite count_nonnegative.
  - unfold _meets_remote_workforce. cbn.
    destruct (remote_work_allowed context); cbn; [|done]. by rewrite count_nonnegative.
Qed.

End tiers.

(** ** The properties on the rule document of [Demo] *)

#[local] Existing Instance plain_tables.

Lemma returned_spec {A : Type} (d : A) (m : result A) :
  is_Ok m = true → m = Ok (returned d m).
Proof. by destruct m. Qed.

Lemma fallback_missing_controls_witness :
  ∃ status missing,
    control_map Demo.evaluator DemoRuns.nothing = Ok status
    ∧ res_details (DemoRuns.outcome DemoRuns.nothing)
      = fallback_details fallback_reason missing
    ∧ NoDup missing
    ∧ ∀ cid, cid ∈ missing ↔
             ∃ ctrl, status !! cid = Some ctrl
                     ∧ required ctrl = true ∧ satisfied ctrl = false.
Proof.
  apply (fallback_missing_controls Demo.evaluator DemoRuns.nothing
           (DemoRuns.outcome DemoRuns.nothing)).
  - vm_compute. reflexivity.
  - vm_compute. reflexivity.
Defined.

Lemma tier_satisfied_controls_witness :
  ∃ status satisfied_list missing incidents overview,
    control_map Demo.evaluator DemoRuns.neutral_notes = Ok status
    ∧ res_details (DemoRuns.outcome DemoRuns.neutral_notes)
      = rating_details neutral satisfied_list missing incidents overview
    ∧ NoDup satisfied_list
    ∧ (∀ cid, cid ∈ satisfied_list ↔
              ∃ ctrl, status !! cid = Some ctrl
                      ∧ satisfied ctrl = true ∧ required ctrl = true)
    ∧ (∀ cid ctrl, status !! cid = Some ctrl →
                   satisfied ctrl = true → required ctrl = false →
                   (cid ∉ satisfied_list) ∧ (cid ∉ missing)).
Proof.
  apply (tier_satisfied_controls Demo.evaluator DemoRuns.neutral_notes
           (DemoRuns.outcome DemoRuns.neutral_notes) neutral).
  - vm_compute. reflexivity.
  - vm_compute. reflexivity.
Defined.

Lemma cross_satisfaction_precedence_witness :
  _statement_present (notes (DemoRuns.run DemoRuns.sso))
    "MFA is required for critical systems" = false
  ∧ (∀ st req,
       check_control (DemoRuns.run DemoRuns.sso) (DemoRuns.cross_of DemoRuns.sso) st
         (Demo.control "lac_mfa_critical_or_pii"
            "MFA is required for critical systems" ["mfa"]) req =
         Ok (<["lac_mfa_critical_or_pii" :=
                 {| control_id := "lac_mfa_critical_or_pii";
                    required := req;
                    satisfied := true;
                    text := "MFA is required for critical systems";
                    tags := ["mfa"] |}]> st))
  ∧ ∃ ctrl, DemoRuns.status_of DemoRuns.sso !! "lac_mfa_critical_or_pii" = Some ctrl
            ∧ satisfied ctrl = true.
Proof.
  split; [reflexivity|].
  apply (cross_satisfaction_precedence (DemoRuns.run DemoRuns.sso)
           (DemoRuns.context_of DemoRuns.sso) (DemoRuns.cross_of DemoRuns.sso)
           (DemoRuns.status_of DemoRuns.sso)
           (Demo.control "lac_mfa_critical_or_pii"
              "MFA is required for critical systems" ["mfa"])
           "lac_mfa_critical_or_pii").
  - apply returned_spec. vm_compute. reflexivity.
  - apply list_elem_of_In. vm_compute. tauto.
  - reflexivity.
  - apply (bool_decide_unpack _). vm_compute. exact I.
Defined.

Lemma need_to_know_override_witness :
  _statement_present (notes (DemoRuns.run DemoRuns.least_privilege))
    "Access to PII is need to know" = false
  ∧ DemoRuns.status_of DemoRuns.least_privilege !! "net_pii_need_to_know" =
      Some {| control_id := "net_pii_need_to_know";
              required := false;
              satisfied := true;
              text := "Access to PII is need to know";
              tags := [] |}.
Proof.
  split; [reflexivity|].
  apply (need_to_know_override (DemoRuns.run DemoRuns.least_privilege)
           (DemoRuns.context_of DemoRuns.least_privilege)
           (DemoRuns.cross_of DemoRuns.least_privilege)
           (DemoRuns.status_of DemoRuns.least_privilege)
           (Demo.control "lac_least_privilege" "Least privilege is enforced" ["access"])
           (Demo.control "net_pii_need_to_know" "Access to PII is need to know" [])).
  - reflexivity.
  - apply (bool_decide_unpack _). vm_compute. exact I.
  - apply list_elem_of_In. vm_compute. tauto.
  - reflexivity.
  - apply list_elem_of_In. vm_compute. tauto.
  - reflexivity.
  - apply returned_spec. vm_compute. reflexivity.
  - vm_compute. reflexivity.
Defined.

(** C2, as stated, fails, whatever the tables of the runtime.  The notes
    rate [neutral]; the text of the control [lac_least_privilege] is
    appended and satisfies that control; the need-to-know control stops
    being required, no required PII control is left, and the rating falls to
    [very_unfavorable].  Two more extensions that lower the result: a
    sentence that makes the vendor a PII handler, and a standalone n/a. *)
Lemma rating_not_monotone :
  (∃ r r',
     (∀ U : Py.Unicode,
        (evaluate (U:=U) Demo.evaluator DemoRuns.pii_notes).2 = Ok r
        ∧ (evaluate (U:=U) Demo.evaluator DemoRuns.pii_notes_extended).2 = Ok r'
        ∧ _statement_satisfies_control (U:=U)
            (DemoRuns.run (U:=U) DemoRuns.pii_notes)
            "lac_least_privilege" "Least privilege is enforced" = Ok false
        ∧ _statement_satisfies_control (U:=U)
            (DemoRuns.run (U:=U) DemoRuns.pii_notes_extended)
            "lac_least_privilege" "Least privilege is enforced" = Ok true)
     ∧ res_context r' = res_context r
     ∧ res_rating r = tier neutral
     ∧ res_rating r' = very_unfavorable
     ∧ ¬ never_worse (res_rating r) (res_rating r'))
  ∧ (∃ r r',
       (∀ U : Py.Unicode,
          (evaluate (U:=U) Demo.evaluator DemoRuns.neutral_notes).2 = Ok r
          ∧ (evaluate (U:=U) Demo.evaluator DemoRuns.neutral_notes_with_pii).2 = Ok r')
       ∧ res_handles_pii (res_context r) = false
       ∧ res_handles_pii (res_context r') = true
       ∧ res_rating r = tier neutral
       ∧ res_rating r' = very_unfavorable
       ∧ ¬ never_worse (res_rating r) (res_rating r'))
  ∧ (∃ r r',
       (∀ U : Py.Unicode,
          (evaluate (U:=U) Demo.evaluator DemoRuns.neutral_notes).2 = Ok r
          ∧ (evaluate (U:=U) Demo.evaluator DemoRuns.neutral_notes_with_na).2 = Ok r')
       ∧ res_rating r = tier neutral
       ∧ res_rating r' = n_a
       ∧ ¬ never_worse (res_rating r) (res_rating r')).
Proof.
  split_and!.
  - exists (DemoRuns.outcome DemoRuns.pii_notes),
           (DemoRuns.outcome DemoRuns.pii_notes_extended).
    split_and!; [intros U; split_and!; vm_compute; reflexivity
                |vm_compute; reflexivity..|].
    intros (a & b & Ha & Hb & Hle). vm_compute in Ha, Hb.
    injection Ha as <-. injection Hb as <-. lia.
  - exists (DemoRuns.outcome DemoRuns.neutral_notes),
           (DemoRuns.outcome DemoRuns.neutral_notes_with_pii).
    split_and!; [intros U; split_and!; vm_compute; reflexivity
                |vm_compute; reflexivity..|].
    intros (a & b & Ha & Hb & Hle). vm_compute in Ha, Hb.
    injection Ha as <-. injection Hb as <-. lia.
  - exists (DemoRuns.outcome DemoRuns.neutral_notes),
           (DemoRuns.outcome DemoRuns.neutral_notes_with_na).
    split_and!; [intros U; split_and!; vm_compute; reflexivity
                |vm_compute; reflexivity..|].
    intros (a & b & Ha & Hb & Hle). vm_compute in Hb. discriminate.
Qed.

(** A check of [pii_required] that computes. *)
Lemma pii_required_check (m : result StatusMap) (status : StatusMap) :
  m = Ok status →
  match m with
  | Ok st => existsb (λ kv, Py.startswith kv.1 "net_pii_" && required kv.2)
               (map_to_list st)
  | Raise _ => false
  end = true →
  pii_required status.
Proof.
  intros ->. rewrite existsb_exists.
  intros ([k ctrl] & Hin%list_elem_of_In%elem_of_map_to_list
          & [Hprefix Hreq]%andb_true_iff).
  by exists k, ctrl.
Qed.

(** The appended sentence satisfies least privilege and the need-to-know
    control stops being required; the second PII control stays required and
    the rating stays [neutral]. *)
Lemma rating_grows_with_notes_witness :
  (∃ r', (evaluate Demo.two_pii_evaluator DemoRuns.two_pii_notes_extended).2 = Ok r'
         ∧ never_worse
             (res_rating
                (returned (degenerate_result n_a)
                   (evaluate Demo.two_pii_evaluator DemoRuns.two_pii_notes).2))
             (res_rating r'))
  ∧ required <$> (returned ∅ (control_map Demo.two_pii_evaluator DemoRuns.two_pii_notes)
                    !! "net_pii_need_to_know") = Some true
  ∧ required <$> (returned ∅ (control_map Demo.two_pii_evaluator
                                DemoRuns.two_pii_notes_extended)
                    !! "net_pii_need_to_know") = Some false.
Proof.
  split; [|split; vm_compute; reflexivity].
  apply (rating_grows_with_notes Demo.two_pii_evaluator DemoRuns.two_pii_notes
           DemoRuns.two_pii_notes_extended).
  - apply str_in_spec. vm_compute. reflexivity.
  - apply returned_spec. vm_compute. reflexivity.
  - vm_compute. discriminate.
  - rewrite <-str_in_spec. vm_compute. discriminate.
  - rewrite <-search_na_spec. vm_compute. discriminate.
  - vm_compute. reflexivity.
  - intros status status' _ _ Hstatus' _.
    apply (pii_required_check _ _ Hstatus'). vm_compute. reflexivity.
Defined.

Lemma missing_section_raises_witness :
  (evaluate {| rules := {| conditions := Some Demo.demo_conditions;
                           catalog := None;
                           ratings := Some Demo.demo_ratings |};
               notes := "" |} DemoRuns.nothing).2
  = Raise (KeyError "catalog").
Proof.
  destruct (missing_section_raises
              {| rules := {| conditions := Some Demo.demo_conditions;
                             catalog := None;
                             ratings := Some Demo.demo_ratings |};
                 notes := "" |} DemoRuns.nothing) as (key & -> & _ & Hkey & _).
  - vm_compute. discriminate.
  - rewrite <-str_in_spec. vm_compute. discriminate.
  - rewrite <-search_na_spec. vm_compute. discriminate.
  - right. left. reflexivity.
  - rewrite Hkey; [reflexivity|discriminate|reflexivity].
Defined.

Lemma evaluate_deterministic_witness :
  Ordered.evaluate reversed_order (DemoRuns.run DemoRuns.sso) DemoRuns.neutral_notes
  = Ordered.evaluate canonical_order Demo.evaluator DemoRuns.neutral_notes.
Proof.
  destruct (evaluate_deterministic canonical_order reversed_order Demo.evaluator
              (DemoRuns.run DemoRuns.sso) DemoRuns.neutral_notes)
    as [Hsame _]; [reflexivity|exact Hsame].
Defined.

(** Notes of a no-break space, a space and a tab. *)
Lemma degenerate_ratings_exact_witness :
  (res_rating (DemoRuns.outcome DemoRuns.blank_notes) = no_information_provided ↔
   Py.blank DemoRuns.blank_notes = true)
  ∧ (res_rating (DemoRuns.outcome DemoRuns.blank_notes) = n_a ↔
     Py.blank DemoRuns.blank_notes = false
     ∧ (occurs_in "not applicable" (normal_form DemoRuns.blank_notes)
        ∨ standalone_na (normal_form DemoRuns.blank_notes))).
Proof.
  apply (degenerate_ratings_exact Demo.evaluator DemoRuns.blank_notes
           (DemoRuns.outcome DemoRuns.blank_notes)).
  apply returned_spec. vm_compute. reflexivity.
Defined.


Lemma degenerate_notes_witness :
  (evaluate {| rules := {| conditions := None; catalog := None; ratings := None |};
               notes := "" |} DemoRuns.blank_notes).2
  = Ok (short_circuit no_information_provided)
  ∧ (evaluate Demo.evaluator "Firewalls are in place. Encryption: N/A.").2
    = Ok (short_circuit n_a)
  ∧ (evaluate Demo.evaluator "N/a").2 = Ok (short_circuit n_a).
Proof.
  split_and!.
  - destruct (degenerate_notes
                {| rules := {| conditions := None; catalog := None; ratings := None |};
                   notes := "" |} DemoRuns.blank_notes) as (Hblank & _ & _).
    apply Hblank. right. vm_compute. reflexivity.
  - destruct (degenerate_notes Demo.evaluator
                "Firewalls are in place. Encryption: N/A.") as (_ & Hna & _).
    apply Hna.
    + vm_compute. discriminate.
    + right. rewrite <-normalize_normal_form. apply search_na_spec.
      vm_compute. reflexivity.
  - destruct (degenerate_notes Demo.evaluator "N/a") as (_ & _ & Hlower).
    apply Hlower. vm_compute. reflexivity.
Defined.

Lemma word_identifier_has_no_tail_token_witness :
  _statement_satisfies_control
    {| rules := Demo.demo_rules; notes := "mfa critical or pii is enforced" |}
    "lac_mfa_critical_or_pii" "MFA is required for critical systems"
  = Ok false.
Proof.
  rewrite (word_identifier_has_no_tail_token
             {| rules := Demo.demo_rules; notes := "mfa critical or pii is enforced" |}
             "lac_mfa_critical_or_pii" "MFA is required for critical systems");
    [reflexivity|reflexivity|discriminate].
Defined.

Lemma build_context_exact_witness :
  software_provider (DemoRuns.context_of "We provide a SaaS platform.") = true ↔
  ∃ phrase, phrase ∈ SOFTWARE_PROVIDER_KEYWORDS
            ∧ occurs_in phrase (notes (DemoRuns.run "We provide a SaaS platform.")).
Proof.
  apply (build_context_exact (DemoRuns.run "We provide a SaaS platform.")
           Demo.demo_conditions (DemoRuns.context_of "We provide a SaaS platform.")).
  - reflexivity.
  - apply returned_spec. reflexivity.
Defined.

Lemma cross_satisfaction_order_independent_witness :
  _apply_cross_satisfaction
    {| rules :=
         {| conditions :=
              Some {| cond_logical_access_controls := None;
                      cond_network_information_security := None;
                      cond_remote_workforce := None;
                      cross_satisfaction :=
                        Some [ {| if_any_statement_present := Some ["b"];
                                  then_mark_controls_met := Some ["net_b"] |};
                               {| if_any_statement_present := Some ["a"];
                                  then_mark_controls_met := Some ["lac_a"] |} ] |};
            catalog := None;
            ratings := None |};
       notes := "a b" |}
  = _apply_cross_satisfaction
      {| rules :=
           {| conditions :=
                Some {| cond_logical_access_controls := None;
                        cond_network_information_security := None;
                        cond_remote_workforce := None;
                        cross_satisfaction :=
                          Some [ {| if_any_statement_present := Some ["a"];
                                    then_mark_controls_met := Some ["lac_a"] |};
                                 {| if_any_statement_present := Some ["b"];
                                    then_mark_controls_met := Some ["net_b"] |} ] |};
              catalog := None;
              ratings := None |};
         notes := "a b" |}.
Proof.
  eapply cross_satisfaction_order_independent; [reflexivity..|].
  cbn. apply Permutation_swap.
Defined.

Lemma control_map_domain_witness :
  is_Some (DemoRuns.status_of DemoRuns.nothing !! "rw_vpn") ↔
  ∃ control,
    control ∈ catalog_controls
                (default no_catalog (catalog (rules (DemoRuns.run DemoRuns.nothing))))
    ∧ ctl_id control = Some "rw_vpn".
Proof.
  apply (control_map_domain (DemoRuns.run DemoRuns.nothing)
           (DemoRuns.context_of DemoRuns.nothing) (DemoRuns.cross_of DemoRuns.nothing)).
  apply returned_spec. vm_compute. reflexivity.
Defined.

Lemma result_incident_elements_witness :
  ∃ cat found,
    catalog (rules Demo.evaluator) = Some cat
    ∧ res_incident_elements (res_context (DemoRuns.outcome DemoRuns.favorable_notes))
      = Some found
    ∧ StronglySorted Py.le found
    ∧ NoDup found
    ∧ ∀ element,
        element ∈ found ↔
        element ∈ default [] (incident_response_elements cat)
        ∧ _statement_present (_normalize DemoRuns.favorable_notes) element = true.
Proof.
  apply (result_incident_elements Demo.evaluator DemoRuns.favorable_notes
           (DemoRuns.outcome DemoRuns.favorable_notes)).
  - apply returned_spec. vm_compute. reflexivity.
  - vm_compute. discriminate.
Defined.

Lemma details_agree_with_rating_witness :
  match res_details (DemoRuns.outcome DemoRuns.nothing) with
  | no_details => favorability (res_rating (DemoRuns.outcome DemoRuns.nothing)) = None
  | rating_details t satisfied_list missing incidents overview =>
      res_rating (DemoRuns.outcome DemoRuns.nothing) = tier t
      ∧ StronglySorted Py.le satisfied_list
      ∧ StronglySorted Py.le missing
      ∧ StronglySorted Py.le incidents
      ∧ StronglySorted Py.le overview
      ∧ ∀ cid, cid ∈ satisfied_list → cid ∉ missing
  | fallback_details reason missing =>
      res_rating (DemoRuns.outcome DemoRuns.nothing) = very_unfavorable
      ∧ reason = fallback_reason
      ∧ StronglySorted Py.le missing
  end.
Proof.
  apply (details_agree_with_rating Demo.evaluator DemoRuns.nothing).
  apply returned_spec. vm_compute. reflexivity.
Defined.

Lemma rated_result_needs_sections_witness :
  ∃ cond cat rts best overview,
    conditions (rules Demo.evaluator) = Some cond
    ∧ catalog (rules Demo.evaluator) = Some cat
    ∧ ratings (rules Demo.evaluator) = Some rts
    ∧ ratings_very_favorable rts = Some best
    ∧ req_info_tech_overview best = Some overview.
Proof.
  apply (rated_result_needs_sections Demo.evaluator DemoRuns.nothing
           (DemoRuns.outcome DemoRuns.nothing)).
  - apply returned_spec. vm_compute. reflexivity.
  - vm_compute. discriminate.
Defined.

Lemma awarded_tier_is_first_met_witness :
  ∃ rts,
    ratings (rules Demo.evaluator) = Some rts
    ∧ ∀ t', ∃ requirements',
              ratings_getitem rts t' = Ok requirements'
              ∧ _meets_rating t' requirements'
                  (DemoRuns.context_of DemoRuns.nothing)
                  (DemoRuns.status_of DemoRuns.nothing) ∅ ∅ false = false.
Proof.
  apply (awarded_tier_is_first_met (DemoRuns.run DemoRuns.nothing)
           (DemoRuns.context_of DemoRuns.nothing) (DemoRuns.status_of DemoRuns.nothing)
           ∅ ∅ false very_unfavorable
           (fallback_details fallback_reason
              (_missing_required_controls (DemoRuns.status_of DemoRuns.nothing)))).
  vm_compute. reflexivity.
Defined.
